(** * EdgeLint: the rule-based Workers analyzer of [src/tools.ts]

    A shallow embedding of the [execute] function of the [analyzeWorkerCode]
    tool: the fixed rule catalog applied to a source text, and the rendering
    of the accumulated [issues] array into the report string.  The earlier
    variant of the same tool, whose findings are plain messages, is embedded
    next to it and compared with it.

    JavaScript strings are sequences of UTF-16 code units; they are modelled
    as [list N].  The array [issues] is mutated by [push]; it is threaded
    explicitly.  The only effect of [execute] besides its result is one
    [console.log] line, modelled by a small state monad over the console. *)

From Stdlib Require Import Ascii String DecimalString DecimalFacts DecimalNat.
From Stdlib Require Import List NArith Bool Arith Lia.
Import ListNotations.
Local Open Scope list_scope.

(** ** JavaScript strings *)

Module JS.

Definition jsstring := list N.

(** An ASCII literal as a sequence of code units. *)
Definition lit (s : string) : jsstring :=
  map N_of_ascii (list_ascii_of_string s).
Arguments lit s%_string.

(** The escape [\n] and the double quote character. *)
Definition nl : jsstring := [10%N].
Definition dq : jsstring := [34%N].

(** [s === p] on strings. *)
Fixpoint eqb (s p : jsstring) : bool :=
  match s, p with
  | [], [] => true
  | a :: s', b :: p' => N.eqb a b && eqb s' p'
  | _, _ => false
  end.

(** [s.startsWith(p)]: the search string is a prefix of [s]. *)
Fixpoint startsWith (s p : jsstring) {struct p} : bool :=
  match p with
  | [] => true
  | b :: p' =>
      match s with
      | [] => false
      | a :: s' => N.eqb a b && startsWith s' p'
      end
  end.

(** [s.includes(p)]: the search string occurs at some position of [s]. *)
Fixpoint includes (s p : jsstring) : bool :=
  startsWith s p ||
  match s with
  | [] => false
  | _ :: s' => includes s' p
  end.

(** Interpolation [`${n}`] of a non-negative integer: its decimal digits. *)
Definition toString (n : nat) : jsstring :=
  lit (NilEmpty.string_of_uint (Nat.to_uint n)).

(** Truthiness of an optional string: [undefined] and [''] are falsy. *)
Definition truthy (s : option jsstring) : bool :=
  match s with
  | Some (_ :: _) => true
  | _ => false
  end.

End JS.

Import JS.

(** ** Regular expressions

    The two patterns of the analyzer use literals, alternation, the classes
    [\s] and [\w], the quantifiers [+] and [*], and (for one of them) the
    assertion [^] under the [m] flag.  Only the truthiness of [code.match]
    is used, that is, whether some position of the text starts a match. *)

Module RegExp.

Inductive regex : Type :=
| Void : regex
| Eps : regex
| Class : (N -> bool) -> regex
| Seq : regex -> regex -> regex
| Alt : regex -> regex -> regex
| Star : regex -> regex.

Definition Plus (r : regex) : regex := Seq r (Star r).

Fixpoint Lit (s : jsstring) : regex :=
  match s with
  | [] => Eps
  | c :: s' => Seq (Class (N.eqb c)) (Lit s')
  end.

(** The words of a pattern. *)
Inductive lang : regex -> jsstring -> Prop :=
| lang_eps : lang Eps []
| lang_class f c : f c = true -> lang (Class f) [c]
| lang_seq r1 r2 u v : lang r1 u -> lang r2 v -> lang (Seq r1 r2) (u ++ v)
| lang_alt_l r1 r2 u : lang r1 u -> lang (Alt r1 r2) u
| lang_alt_r r1 r2 u : lang r2 u -> lang (Alt r1 r2) u
| lang_star_nil r : lang (Star r) []
| lang_star_cons r u v : lang r u -> lang (Star r) v -> lang (Star r) (u ++ v).

Fixpoint nullable (r : regex) : bool :=
  match r with
  | Void => false
  | Eps => true
  | Class _ => false
  | Seq r1 r2 => nullable r1 && nullable r2
  | Alt r1 r2 => nullable r1 || nullable r2
  | Star _ => true
  end.

(** The pattern left to match once the code unit [c] is consumed. *)
Fixpoint deriv (c : N) (r : regex) : regex :=
  match r with
  | Void => Void
  | Eps => Void
  | Class f => if f c then Eps else Void
  | Seq r1 r2 =>
      if nullable r1
      then Alt (Seq (deriv c r1) r2) (deriv c r2)
      else Seq (deriv c r1) r2
  | Alt r1 r2 => Alt (deriv c r1) (deriv c r2)
  | Star r1 => Seq (deriv c r1) (Star r1)
  end.

(** Some prefix of [s] is a word of [r]: a match starts at the head of [s]. *)
Fixpoint matchesAt (r : regex) (s : jsstring) : bool :=
  nullable r ||
  match s with
  | [] => false
  | c :: s' => matchesAt (deriv c r) s'
  end.

Local Open Scope N_scope.

(** [\w]: ASCII letters, digits and the underscore. *)
Definition isWordChar (c : N) : bool :=
  ((48 <=? c) && (c <=? 57)) || ((65 <=? c) && (c <=? 90)) ||
  ((97 <=? c) && (c <=? 122)) || (c =? 95).

(** Line terminators: LF, CR, LS, PS. *)
Definition isLineTerminator (c : N) : bool :=
  (c =? 10) || (c =? 13) || (c =? 8232) || (c =? 8233).

(** [\s]: the white space code points and the line terminators. *)
Definition isWhiteSpace (c : N) : bool :=
  (c =? 9) || (c =? 11) || (c =? 12) || (c =? 32) || (c =? 160) ||
  (c =? 5760) || ((8192 <=? c) && (c <=? 8202)) || (c =? 8239) ||
  (c =? 8287) || (c =? 12288) || (c =? 65279) || isLineTerminator c.

(** [s.match(/r/)] is not [null]: a match starts at some position. *)
Fixpoint search (r : regex) (s : jsstring) : bool :=
  matchesAt r s ||
  match s with
  | [] => false
  | _ :: s' => search r s'
  end.

(** [s.match(/^r/m)] is not [null]: a match starts at the beginning of the
    text or right after a line terminator.  [bol] tells whether the current
    position is such a beginning of line. *)
Fixpoint searchLines (bol : bool) (r : regex) (s : jsstring) : bool :=
  (bol && matchesAt r s) ||
  match s with
  | [] => false
  | c :: s' => searchLines (isLineTerminator c) r s'
  end.

End RegExp.

Import RegExp.

(** ** The rule catalog and the analyzer *)

Record Finding : Type := mkFinding {
  severity : jsstring;
  title : jsstring;
  description : jsstring;
  line : option nat
}.

Definition CRITICAL : jsstring := lit "CRITICAL".
Definition ERROR : jsstring := lit "ERROR".
Definition WARNING : jsstring := lit "WARNING".
Definition INFO : jsstring := lit "INFO".

(** [issues.push(i)] *)
Definition push (issues : list Finding) (i : Finding) : list Finding :=
  issues ++ [i].

(** [l.forEach(x => body)] where the body updates the state [st]. *)
Definition forEach {A St : Type} (l : list A) (body : A -> St -> St) (st : St) : St :=
  fold_left (fun st x => body x st) l st.

Definition nodeAPIs : list jsstring :=
  [ lit "fs"; lit "path"; lit "crypto"; lit "os"; lit "process"; lit "child_process";
    lit "cluster"; lit "dns"; lit "http"; lit "https"; lit "net"; lit "tls"; lit "stream";
    lit "buffer"; lit "events"; lit "util"; lit "url"; lit "querystring"; lit "zlib" ].

Definition blockingOps : list (jsstring * jsstring) :=
  [ (lit "readFileSync", lit "Use KV.get() or R2 fetch with await");
    (lit "writeFileSync", lit "Use KV.put() or R2 put with await");
    (lit "execSync", lit "Not supported - rethink your architecture");
    (lit "readSync", lit "Use async operations with await") ].

(** The four textual forms under which a module of the deny-list is looked for. *)
Definition mentionsModule (code api : jsstring) : bool :=
  includes code (lit "from '" ++ api ++ lit "'") ||
  includes code (lit "from " ++ dq ++ api ++ dq) ||
  includes code (lit "require('" ++ api ++ lit "')") ||
  includes code (lit "require(" ++ dq ++ api ++ dq ++ lit ")").

Definition nodeIssue (api : jsstring) : Finding :=
  {| severity := CRITICAL;
     title := lit "Node.js '" ++ api ++ lit "' module not available";
     description :=
       lit "Workers run in V8 isolates without Node.js APIs. Replace '" ++ api ++
       lit "' with Workers-compatible alternatives.";
     line := None |}.

Definition blockingIssue (pattern fix' : jsstring) : Finding :=
  {| severity := CRITICAL;
     title := lit "Synchronous operation: " ++ pattern ++ lit "()";
     description := lit "Blocking operations hurt edge performance. " ++ fix';
     line := None |}.

Definition timersIssue : Finding :=
  {| severity := WARNING;
     title := lit "Timers not supported in Workers";
     description :=
       lit "setTimeout/setInterval won't work. Use Durable Objects Alarms for scheduled tasks, or Workflows for delayed execution.";
     line := None |}.

Definition globalStateIssue : Finding :=
  {| severity := WARNING;
     title := lit "Potential global state detected";
     description :=
       lit "Workers are stateless. Global variables reset between requests. Use Durable Objects or KV for persistence.";
     line := None |}.

Definition errorHandlingIssue : Finding :=
  {| severity := WARNING;
     title := lit "Missing error handling";
     description :=
       lit "Async operations should be wrapped in try-catch blocks to handle failures gracefully.";
     line := None |}.

Definition defaultExportIssue : Finding :=
  {| severity := ERROR;
     title := lit "Missing default export";
     description :=
       lit "Workers require a default export with a fetch handler: export default { async fetch(request, env, ctx) {...} }";
     line := None |}.

Definition fetchHandlerIssue : Finding :=
  {| severity := ERROR;
     title := lit "No fetch handler found";
     description := lit "Workers need a fetch() method to handle HTTP requests.";
     line := None |}.

Definition envParameterIssue : Finding :=
  {| severity := INFO;
     title := lit "Missing env parameter";
     description :=
       lit "Add env parameter to access bindings (KV, R2, D1, etc.): fetch(request, env, ctx)";
     line := None |}.

Definition responseIssue : Finding :=
  {| severity := INFO;
     title := lit "Consider using Response objects";
     description :=
       lit "Return proper Response objects with status codes and headers for better HTTP handling.";
     line := None |}.

Definition waitUntilIssue : Finding :=
  {| severity := INFO;
     title := lit "Consider using ctx.waitUntil()";
     description :=
       lit "For background tasks that can complete after responding, use ctx.waitUntil() to keep the Worker alive.";
     line := None |}.

(** [/^(let|var|const)\s+\w+\s*=/m], without its leading assertion. *)
Definition globalStateRegex : regex :=
  Seq (Alt (Lit (lit "let")) (Alt (Lit (lit "var")) (Lit (lit "const"))))
   (Seq (Plus (Class isWhiteSpace))
    (Seq (Plus (Class isWordChar))
     (Seq (Star (Class isWhiteSpace)) (Lit (lit "="))))).

(** [/async\s+\w+/g] *)
Definition asyncRegex : regex :=
  Seq (Lit (lit "async"))
   (Seq (Plus (Class isWhiteSpace)) (Plus (Class isWordChar))).

(** The rule part of [execute]: every check in source order, each one
    pushing at most one finding per listed item. *)
Definition analyze (code : jsstring) : list Finding :=
  let issues : list Finding := [] in
  (* Check for Node.js APIs *)
  let issues :=
    forEach nodeAPIs (fun api issues =>
      if mentionsModule code api then push issues (nodeIssue api) else issues)
      issues in
  (* Check for blocking operations *)
  let issues :=
    forEach blockingOps (fun '(pattern, fix') issues =>
      if includes code pattern then push issues (blockingIssue pattern fix')
      else issues)
      issues in
  (* Check for setTimeout/setInterval *)
  let issues :=
    if includes code (lit "setTimeout") || includes code (lit "setInterval")
    then push issues timersIssue else issues in
  (* Check for global state *)
  let issues :=
    if searchLines true globalStateRegex code && includes code (lit "export default")
    then push issues globalStateIssue else issues in
  (* Check for missing error handling *)
  let asyncFunctions := search asyncRegex code in
  let issues :=
    if asyncFunctions && negb (includes code (lit "try")) &&
       negb (includes code (lit "catch"))
    then push issues errorHandlingIssue else issues in
  (* Check for proper Workers export *)
  let issues :=
    if negb (includes code (lit "export default"))
    then push issues defaultExportIssue else issues in
  (* Check for fetch handler *)
  let issues :=
    if negb (includes code (lit "fetch(")) && negb (includes code (lit "fetch ("))
    then push issues fetchHandlerIssue else issues in
  (* Check for env parameter usage *)
  let issues :=
    if includes code (lit "fetch(request)") &&
       negb (includes code (lit "fetch(request, env"))
    then push issues envParameterIssue else issues in
  (* Check for Response usage *)
  let issues :=
    if includes code (lit "return ") && negb (includes code (lit "Response"))
    then push issues responseIssue else issues in
  (* Check for waitUntil usage for background tasks *)
  let issues :=
    if (includes code (lit "await") || includes code (lit "fetch(")) &&
       negb (includes code (lit "waitUntil"))
    then push issues waitUntilIssue else issues in
  issues.

(** ** The report *)

(** The non-ASCII code units that open the fixed message and the section
    headers, exactly as the template literals of the source hold them. *)
Definition checkMark : jsstring := [226; 339; 8230]%N.
Definition partyMark : jsstring := [240; 376; 381; 8240]%N.
Definition criticalMark : jsstring := [240; 376; 8221; 180]%N.
Definition errorsMark : jsstring := [240; 376; 376; 160]%N.
Definition warningsMark : jsstring := [240; 376; 376; 161]%N.
Definition infoMark : jsstring := [226; 8222; 185; 239; 184]%N.

Definition allClear : jsstring :=
  checkMark ++ lit " Excellent! No major issues detected." ++ nl ++
  nl ++
  lit "  This code appears to be Workers-compatible and follows edge computing best practices. Great job! " ++ partyMark ++ nl ++
  nl ++
  lit "  Some optional improvements you might consider:" ++ nl ++
  lit "  - Add comprehensive error handling" ++ nl ++
  lit "  - Implement caching strategies" ++ nl ++
  lit "  - Add request validation" ++ nl ++
  lit "  - Consider rate limiting".

(** [l.forEach((x, i) => body)], the index starting at [i]. *)
Fixpoint forEachIndexed {A St : Type} (l : list A) (i : nat)
    (body : A -> nat -> St -> St) (st : St) : St :=
  match l with
  | [] => st
  | x :: l' => forEachIndexed l' (S i) body (body x i st)
  end.

(** The body shared by the four loops:
    [result += `\n${i + 1}. ${issue.title}\n   ${issue.description}\n`]. *)
Definition appendIssue (issue : Finding) (i : nat) (result : jsstring) : jsstring :=
  result ++ (nl ++ toString (i + 1) ++ lit ". " ++ title issue ++ nl ++
             lit "   " ++ description issue ++ nl).

(** The rendering part of [execute], from the test [issues.length === 0] on. *)
Definition format (issues : list Finding) : jsstring :=
  if length issues =? 0 then allClear
  else
    (* Format issues by severity *)
    let critical := filter (fun i => eqb (severity i) CRITICAL) issues in
    let errors := filter (fun i => eqb (severity i) ERROR) issues in
    let warnings := filter (fun i => eqb (severity i) WARNING) issues in
    let info := filter (fun i => eqb (severity i) INFO) issues in
    let result :=
      lit "Found " ++ toString (length issues) ++ lit " issue(s) in your code:" ++ nl ++ nl in
    let result :=
      if 0 <? length critical then
        let result :=
          result ++ (criticalMark ++ lit " CRITICAL ISSUES (" ++
                     toString (length critical) ++ lit "):" ++ nl) in
        let result := forEachIndexed critical 0 appendIssue result in
        result ++ nl
      else result in
    let result :=
      if 0 <? length errors then
        let result :=
          result ++ (errorsMark ++ lit " ERRORS (" ++
                     toString (length errors) ++ lit "):" ++ nl) in
        let result := forEachIndexed errors 0 appendIssue result in
        result ++ nl
      else result in
    let result :=
      if 0 <? length warnings then
        let result :=
          result ++ (warningsMark ++ lit " WARNINGS (" ++
                     toString (length warnings) ++ lit "):" ++ nl) in
        let result := forEachIndexed warnings 0 appendIssue result in
        result ++ nl
      else result in
    let result :=
      if 0 <? length info then
        let result :=
          result ++ (infoMark ++ lit " SUGGESTIONS (" ++
                     toString (length info) ++ lit "):" ++ nl) in
        forEachIndexed info 0 appendIssue result
      else result in
    result.

(** ** The tool entry point

    [execute] logs one line and returns the report.  The console is the only
    state it touches. *)

Definition Console : Type := list jsstring.

Definition IO (A : Type) : Type := Console -> A * Console.

Definition ret {A : Type} (a : A) : IO A := fun c => (a, c).

Definition bind {A B : Type} (m : IO A) (k : A -> IO B) : IO B :=
  fun c => let '(a, c') := m c in k a c'.

Notation "m ;; k" := (bind m (fun _ => k)) (at level 61, right associativity).

Definition console_log (msg : jsstring) : IO unit :=
  fun c => (tt, c ++ [msg]).

Definition execute (code : jsstring) (filename : option jsstring) : IO jsstring :=
  console_log
    (lit "Analyzing code" ++
     (if truthy filename
      then lit " from " ++ match filename with Some f => f | None => [] end
      else []) ++
     lit "...") ;;
  let issues := analyze code in
  ret (format issues).

(** ** The earlier variant of the analyzer

    A second [analyzeWorkerCode] of the repository: its findings are plain
    message strings, joined by blank lines in the report. *)

Module Earlier.

Definition crossMark : jsstring := [10060%N].
Definition warningMark : jsstring := [9888; 65039]%N.
Definition infoMark : jsstring := [8505; 65039]%N.
Definition checkMark : jsstring := [9989%N].

Definition nodeAPIs : list jsstring :=
  [ lit "fs"; lit "path"; lit "crypto"; lit "os"; lit "process"; lit "child_process";
    lit "cluster"; lit "dns"; lit "http"; lit "https"; lit "net"; lit "tls"; lit "stream" ].

Definition nodeMessage (api : jsstring) : jsstring :=
  crossMark ++ lit " CRITICAL: Node.js '" ++ api ++
  lit "' module detected - Not available in Workers".

Definition syncMessage : jsstring :=
  crossMark ++
  lit " CRITICAL: Synchronous file operations detected - Use async operations or KV/R2".

Definition timersMessage : jsstring :=
  warningMark ++
  lit " WARNING: setTimeout/setInterval detected - Consider Durable Objects Alarms or Cron Triggers".

Definition asyncMessage : jsstring :=
  warningMark ++ lit " WARNING: Async operations without try-catch - Add error handling".

Definition exportMessage : jsstring :=
  infoMark ++ lit " INFO: Missing 'export default' - Workers need a default export".

Definition fetchMessage : jsstring :=
  infoMark ++ lit " INFO: No fetch handler detected - Workers need a fetch handler".

(** [issues.push(m)] on an array of strings. *)
Definition push (issues : list jsstring) (m : jsstring) : list jsstring :=
  issues ++ [m].

(** [l.join(sep)] *)
Fixpoint join (sep : jsstring) (l : list jsstring) : jsstring :=
  match l with
  | [] => []
  | x :: l' =>
      match l' with
      | [] => x
      | _ :: _ => x ++ sep ++ join sep l'
      end
  end.

(** The rule part of the earlier [execute]. *)
Definition analyze (code : jsstring) : list jsstring :=
  let issues : list jsstring := [] in
  (* Check for Node.js APIs *)
  let issues :=
    forEach nodeAPIs (fun api issues =>
      if includes code (lit "from '" ++ api ++ lit "'") ||
         includes code (lit "require('" ++ api ++ lit "')")
      then push issues (nodeMessage api) else issues)
      issues in
  (* Check for blocking operations *)
  let issues :=
    if includes code (lit ".readFileSync") || includes code (lit ".writeFileSync")
    then push issues syncMessage else issues in
  (* Check for setTimeout/setInterval *)
  let issues :=
    if includes code (lit "setTimeout") || includes code (lit "setInterval")
    then push issues timersMessage else issues in
  (* Check for missing error handling *)
  let issues :=
    if includes code (lit "async") && negb (includes code (lit "try")) &&
       negb (includes code (lit "catch"))
    then push issues asyncMessage else issues in
  (* Check for proper Workers export *)
  let issues :=
    if negb (includes code (lit "export default"))
    then push issues exportMessage else issues in
  (* Check for fetch handler *)
  let issues :=
    if negb (includes code (lit "fetch("))
    then push issues fetchMessage else issues in
  issues.

Definition report (issues : list jsstring) : jsstring :=
  if length issues =? 0 then
    checkMark ++ lit " Code looks good! No major issues detected." ++ nl ++ nl ++
    lit "This code appears to be Workers-compatible. Great job!"
  else
    lit "Found " ++ toString (length issues) ++ lit " issue(s):" ++ nl ++ nl ++
    join (nl ++ nl) issues.

Definition execute (code : jsstring) (filename : option jsstring) : IO jsstring :=
  console_log
    (lit "Analyzing code" ++
     (if truthy filename
      then lit " from " ++ match filename with Some f => f | None => [] end
      else []) ++
     lit "...") ;;
  let issues := analyze code in
  ret (report issues).

(** The messages of a text, rule by rule. *)
Definition say (b : bool) (m : jsstring) : list jsstring :=
  if b then [m] else [].

Definition nodeMessages (code : jsstring) : list jsstring :=
  flat_map (fun api =>
    say (includes code (lit "from '" ++ api ++ lit "'") ||
         includes code (lit "require('" ++ api ++ lit "')")) (nodeMessage api)) nodeAPIs.

Definition fixedMessages (code : jsstring) : list jsstring :=
  say (includes code (lit ".readFileSync") || includes code (lit ".writeFileSync"))
    syncMessage ++
  say (includes code (lit "setTimeout") || includes code (lit "setInterval"))
    timersMessage ++
  say (includes code (lit "async") && negb (includes code (lit "try")) &&
       negb (includes code (lit "catch"))) asyncMessage ++
  say (negb (includes code (lit "export default"))) exportMessage ++
  say (negb (includes code (lit "fetch("))) fetchMessage.

End Earlier.

(** ** Sample texts *)

Definition scenario1 : jsstring :=
  lit "import fs from 'fs';" ++ nl ++
  lit "export default { async fetch(request) { return new Response(fs.readFileSync('x')); } }".



(** A handler with the full signature that forwards the request to
    another object's one-argument [fetch]. *)
Definition forwardingWorker : jsstring :=
  lit "export default { async fetch(request, env, ctx) { return upstream.fetch(request); } }".

(** A handler on which no rule fires. *)
Definition cleanWorker : jsstring :=
  lit "export default { fetch(request, env, ctx) { ctx.waitUntil(done); } }".

(** An async function without any try/catch block, whose parameter name
    happens to contain the letters t, r, y. *)
Definition countryLookup : jsstring :=
  lit "async function lookup(country) { return country; }".

Definition doubleQuotedImport : jsstring :=
  lit "import fs from " ++ dq ++ lit "fs" ++ dq ++ lit ";".

(** [import 'm'] and [import('m')] *)
Definition sideEffectImport (api : jsstring) : jsstring :=
  lit "import '" ++ api ++ lit "'".

Definition dynamicImport (api : jsstring) : jsstring :=
  lit "import('" ++ api ++ lit "')".

(** Two CRITICAL findings around one INFO finding. *)
Definition twoCriticalOneInfo : list Finding :=
  [ nodeIssue (lit "fs"); waitUntilIssue;
    blockingIssue (lit "execSync") (lit "Not supported - rethink your architecture") ].

(** A worker that reads a file synchronously, and the same worker inside
    a larger file. *)
Definition blockingWorker : jsstring :=
  lit "const fs = require('fs'); fs.readFileSync('x');".

Definition blockingWorkerBanner : jsstring := lit "// generated file" ++ nl.

(** A text that uses both timer functions. *)
Definition bothTimers : jsstring :=
  lit "setTimeout(tick, 10); setInterval(tick, 10);".

(** An async handler without try/catch, and a module-level counter next
    to a default export. *)
Definition asyncHandler : jsstring :=
  lit "export default { async fetch(request, env, ctx) { ctx.waitUntil(log()); } }".

Definition moduleCounter : jsstring :=
  lit "import x from 'y';" ++ nl ++ lit "let counter = 0;" ++ nl ++
  lit "export default { fetch(request, env, ctx) { ctx.waitUntil(done); } }".

(** An async arrow function: [async] is followed by a parenthesis. *)
Definition asyncArrow : jsstring :=
  lit "export default { fetch: async (request, env, ctx) => { ctx.waitUntil(run(env)); } }".

(** A handler declared with a space before the parenthesis. *)
Definition spacedFetch : jsstring :=
  lit "export default { fetch (request, env, ctx) { } }".

(** An async function whose only failure handling is a promise [.catch]
    on another call. *)
Definition promiseCatch : jsstring :=
  lit "async function load(env) { const v = await env.KV.get('k'); ping().catch(log); return v; }".

(** ** The findings of a text, rule by rule *)

Definition when (b : bool) (i : Finding) : list Finding :=
  if b then [i] else [].

Definition nodeFindings (code : jsstring) : list Finding :=
  flat_map (fun api => when (mentionsModule code api) (nodeIssue api)) nodeAPIs.

Definition blockingFindings (code : jsstring) : list Finding :=
  flat_map (fun op => when (includes code (fst op)) (blockingIssue (fst op) (snd op)))
    blockingOps.

Definition fixedFindings (code : jsstring) : list Finding :=
  when (includes code (lit "setTimeout") || includes code (lit "setInterval")) timersIssue ++
  when (searchLines true globalStateRegex code && includes code (lit "export default"))
    globalStateIssue ++
  when (search asyncRegex code && negb (includes code (lit "try")) &&
        negb (includes code (lit "catch"))) errorHandlingIssue ++
  when (negb (includes code (lit "export default"))) defaultExportIssue ++
  when (negb (includes code (lit "fetch(")) && negb (includes code (lit "fetch (")))
    fetchHandlerIssue ++
  when (includes code (lit "fetch(request)") &&
        negb (includes code (lit "fetch(request, env"))) envParameterIssue ++
  when (includes code (lit "return ") && negb (includes code (lit "Response")))
    responseIssue ++
  when ((includes code (lit "await") || includes code (lit "fetch(")) &&
        negb (includes code (lit "waitUntil"))) waitUntilIssue.

(** ** The report layout, in the words of the specification

    A count header, then one labelled section per severity that has
    findings, in the order CRITICAL, ERROR, WARNING, INFO; each section
    gives its own count and numbers its findings from 1. *)

Inductive Severity : Type := Critical | Error | Warning | Info.

Definition severityName (s : Severity) : jsstring :=
  match s with
  | Critical => CRITICAL
  | Error => ERROR
  | Warning => WARNING
  | Info => INFO
  end.

Definition severityOrder : list Severity := [Critical; Error; Warning; Info].

Definition sectionLabel (s : Severity) : jsstring :=
  match s with
  | Critical => criticalMark ++ lit " CRITICAL ISSUES"
  | Error => errorsMark ++ lit " ERRORS"
  | Warning => warningsMark ++ lit " WARNINGS"
  | Info => infoMark ++ lit " SUGGESTIONS"
  end.

(** The blank line that closes every section but the last one. *)
Definition sectionEnd (s : Severity) : jsstring :=
  match s with
  | Info => []
  | _ => nl
  end.

Fixpoint countSeverity (s : jsstring) (f : list Finding) : nat :=
  match f with
  | [] => 0
  | i :: f' => (if eqb (severity i) s then 1 else 0) + countSeverity s f'
  end.

Definition ofSeverity (s : Severity) (f : list Finding) : list Finding :=
  filter (fun i => eqb (severity i) (severityName s)) f.

Definition numberedItem (k : nat) (issue : Finding) : jsstring :=
  nl ++ toString k ++ lit ". " ++ title issue ++ nl ++
  lit "   " ++ description issue ++ nl.

(** The findings [l], numbered [k], [k+1], ... *)
Definition numberedFrom (k : nat) (l : list Finding) : jsstring :=
  concat (map (fun p => numberedItem (fst p) (snd p)) (combine (seq k (length l)) l)).

Definition specSection (f : list Finding) (s : Severity) : jsstring :=
  sectionLabel s ++ lit " (" ++ toString (countSeverity (severityName s) f) ++
  lit "):" ++ nl ++ numberedFrom 1 (ofSeverity s f) ++ sectionEnd s.

Definition presentSeverities (f : list Finding) : list Severity :=
  filter (fun s => 0 <? countSeverity (severityName s) f) severityOrder.

Definition countHeader (n : nat) : jsstring :=
  lit "Found " ++ toString n ++ lit " issue(s) in your code:" ++ nl ++ nl.

(** ** Positions where [^] matches under the [m] flag

    [a] is the text before the position: the position is a beginning of
    line when [a] is empty (and the text starts there, [bol]) or when the
    last code unit of [a] is a line terminator. *)
Definition lineStart (bol : bool) (a : jsstring) : bool :=
  match a with
  | [] => bol
  | _ :: _ => isLineTerminator (last a 0%N)
  end.

(** ** The rule catalog as data

    Each check of [analyze] as a trigger over the text paired with the
    finding it pushes, in source order. *)

Record Rule : Type := mkRule {
  trigger : jsstring -> bool;
  finding : Finding
}.

Definition catalog : list Rule :=
  map (fun api => mkRule (fun code => mentionsModule code api) (nodeIssue api)) nodeAPIs ++
  map (fun op => mkRule (fun code => includes code (fst op))
                   (blockingIssue (fst op) (snd op))) blockingOps ++
  [ mkRule (fun code => includes code (lit "setTimeout") || includes code (lit "setInterval"))
      timersIssue;
    mkRule (fun code => searchLines true globalStateRegex code &&
                        includes code (lit "export default"))
      globalStateIssue;
    mkRule (fun code => search asyncRegex code && negb (includes code (lit "try")) &&
                        negb (includes code (lit "catch")))
      errorHandlingIssue;
    mkRule (fun code => negb (includes code (lit "export default"))) defaultExportIssue;
    mkRule (fun code => negb (includes code (lit "fetch(")) &&
                        negb (includes code (lit "fetch (")))
      fetchHandlerIssue;
    mkRule (fun code => includes code (lit "fetch(request)") &&
                        negb (includes code (lit "fetch(request, env")))
      envParameterIssue;
    mkRule (fun code => includes code (lit "return ") && negb (includes code (lit "Response")))
      responseIssue;
    mkRule (fun code => (includes code (lit "await") || includes code (lit "fetch(")) &&
                        negb (includes code (lit "waitUntil")))
      waitUntilIssue ].

(** No string of [l] occurs twice. *)
Fixpoint distinctb (l : list jsstring) : bool :=
  match l with
  | [] => true
  | x :: l' => negb (existsb (eqb x) l') && distinctb l'
  end.

Definition knownSeverity (i : Finding) : bool :=
  eqb (severity i) CRITICAL || eqb (severity i) ERROR ||
  eqb (severity i) WARNING || eqb (severity i) INFO.

(** ** Code units of the report

    The titles and descriptions of the catalog are ASCII, while each section
    label opens with a mark that holds a code unit found in no other label. *)

Definition asciiOnly (s : jsstring) : bool :=
  forallb (fun c => (c <? 128)%N) s.

Definition sectionMarkUnit (s : Severity) : N :=
  match s with
  | Critical => 8221%N
  | Error => 160%N
  | Warning => 161%N
  | Info => 8222%N
  end.

(** ** The tool entry point over the heap of arrays

    [execute] once more, with the array [issues] as an object of a heap:
    [const issues = []] allocates it, [issues.push] writes it, and the
    rendering reads it.  The arrays returned by [filter] are new arrays that
    are read and never written; they are kept as values.  The world holds
    the console and every array allocated so far, by any earlier call. *)

Record World : Type := mkWorld {
  console : Console;
  arrays : list (list Finding)
}.

Definition InWorld (A : Type) : Type := World -> A * World.

Definition retW {A : Type} (a : A) : InWorld A := fun w => (a, w).

Definition bindW {A B : Type} (m : InWorld A) (k : A -> InWorld B) : InWorld B :=
  fun w => let '(a, w') := m w in k a w'.

Notation "x <- m ;;; k" := (bindW m (fun x => k))
  (at level 61, m at next level, right associativity).
Notation "m ;;; k" := (bindW m (fun _ => k)) (at level 61, right associativity).

Definition logW (msg : jsstring) : InWorld unit :=
  fun w => (tt, mkWorld (console w ++ [msg]) (arrays w)).

(** [l[n] = x] on the list of arrays; nothing happens out of range. *)
Fixpoint setNth {A : Type} (n : nat) (x : A) (l : list A) : list A :=
  match l with
  | [] => []
  | h :: t =>
      match n with
      | 0 => x :: t
      | S n' => h :: setNth n' x t
      end
  end.

(** [const a = []]: a new array, at the next free address. *)
Definition newArray : InWorld nat :=
  fun w => (length (arrays w), mkWorld (console w) (arrays w ++ [[]])).

(** The contents of the array at [loc]. *)
Definition arrayRead (loc : nat) : InWorld (list Finding) :=
  fun w => (nth loc (arrays w) [], w).

(** [a.push(x)] on the array at [loc]. *)
Definition arrayPush (loc : nat) (x : Finding) : InWorld unit :=
  fun w =>
    (tt, mkWorld (console w)
           (setNth loc (nth loc (arrays w) [] ++ [x]) (arrays w))).

(** [l.forEach(x => body)] for a body that acts on the world. *)
Fixpoint forEachW {A : Type} (l : list A) (body : A -> InWorld unit) : InWorld unit :=
  match l with
  | [] => retW tt
  | x :: l' => body x ;;; forEachW l' body
  end.

(** [if (b) { issues.push(i) }] *)
Definition pushIf (b : bool) (issues : nat) (i : Finding) : InWorld unit :=
  if b then arrayPush issues i else retW tt.

Definition executeInWorld (code : jsstring) (filename : option jsstring) :
    InWorld jsstring :=
  logW
    (lit "Analyzing code" ++
     (if truthy filename
      then lit " from " ++ match filename with Some f => f | None => [] end
      else []) ++
     lit "...") ;;;
  issues <- newArray ;;;
  (* Check for Node.js APIs *)
  forEachW nodeAPIs (fun api =>
    pushIf (mentionsModule code api) issues (nodeIssue api)) ;;;
  (* Check for blocking operations *)
  forEachW blockingOps (fun '(pattern, fix') =>
    pushIf (includes code pattern) issues (blockingIssue pattern fix')) ;;;
  (* Check for setTimeout/setInterval *)
  pushIf (includes code (lit "setTimeout") || includes code (lit "setInterval"))
    issues timersIssue ;;;
  (* Check for global state *)
  pushIf (searchLines true globalStateRegex code && includes code (lit "export default"))
    issues globalStateIssue ;;;
  (* Check for missing error handling *)
  pushIf (search asyncRegex code && negb (includes code (lit "try")) &&
          negb (includes code (lit "catch")))
    issues errorHandlingIssue ;;;
  (* Check for proper Workers export *)
  pushIf (negb (includes code (lit "export default"))) issues defaultExportIssue ;;;
  (* Check for fetch handler *)
  pushIf (negb (includes code (lit "fetch(")) && negb (includes code (lit "fetch (")))
    issues fetchHandlerIssue ;;;
  (* Check for env parameter usage *)
  pushIf (includes code (lit "fetch(request)") &&
          negb (includes code (lit "fetch(request, env")))
    issues envParameterIssue ;;;
  (* Check for Response usage *)
  pushIf (includes code (lit "return ") && negb (includes code (lit "Response")))
    issues responseIssue ;;;
  (* Check for waitUntil usage for background tasks *)
  pushIf ((includes code (lit "await") || includes code (lit "fetch(")) &&
          negb (includes code (lit "waitUntil")))
    issues waitUntilIssue ;;;
  found <- arrayRead issues ;;;
  retW (format found).

(** A world left by earlier activity: two console lines and two arrays, one
    of them holding a finding. *)
Definition usedWorld : World :=
  mkWorld [lit "earlier line"; lit "Analyzing code..."] [[timersIssue]; []].

(** * Properties *)

(** ** Facts about string search *)

Section StringFacts.

Lemma eqb_eq (s p : jsstring) : eqb s p = true <-> s = p.
Proof.
  revert p; induction s as [| a s IH]; intros [| b p]; simpl;
    try (split; [discriminate | discriminate]); try tauto.
  rewrite andb_true_iff, N.eqb_eq, IH.
  split; [intros [-> ->]; reflexivity | intros H; inversion H; auto].
Qed.

Lemma eqb_refl (s : jsstring) : eqb s s = true.
Proof. apply eqb_eq; reflexivity. Qed.

Lemma startsWith_spec (s p : jsstring) :
  startsWith s p = true <-> exists b, s = p ++ b.
Proof.
  revert s; induction p as [| c p IH]; intros s; simpl.
  - split; [intros _; exists s; reflexivity | reflexivity].
  - destruct s as [| a s].
    + split; [discriminate | intros [b H]; discriminate].
    + rewrite andb_true_iff, N.eqb_eq, IH. split.
      * intros [-> [b ->]]. exists b; reflexivity.
      * intros [b H]. inversion H; subst. split; [reflexivity | exists b; reflexivity].
Qed.

Lemma includes_spec (s p : jsstring) :
  includes s p = true <-> exists a b, s = a ++ p ++ b.
Proof.
  induction s as [| c s IH]; simpl.
  - rewrite orb_false_r, startsWith_spec. split.
    + intros [b H]. exists [], b. exact H.
    + intros [a [b H]]. destruct a as [| x a]; [exists b; exact H | discriminate].
  - rewrite orb_true_iff, startsWith_spec, IH. split.
    + intros [[b H] | [a [b H]]].
      * exists [], b. exact H.
      * exists (c :: a), b. simpl. rewrite H. reflexivity.
    + intros [a [b H]]. destruct a as [| x a].
      * left. exists b. exact H.
      * right. inversion H; subst. exists a, b. reflexivity.
Qed.

Lemma includes_app (a p b : jsstring) : includes (a ++ p ++ b) p = true.
Proof. apply includes_spec. exists a, b. reflexivity. Qed.

Lemma includes_nil_l (p : jsstring) : p <> [] -> includes [] p = false.
Proof. destruct p; [congruence | reflexivity]. Qed.

End StringFacts.

(** ** The analyzer as a concatenation of rule outcomes *)

Lemma push_when (b : bool) (issues : list Finding) (i : Finding) :
  (if b then push issues i else issues) = issues ++ when b i.
Proof. destruct b; simpl; [reflexivity | now rewrite app_nil_r]. Qed.

Lemma forEach_append {A : Type} (body : A -> list Finding -> list Finding)
    (h : A -> list Finding) :
  (forall x st, body x st = st ++ h x) ->
  forall l st, forEach l body st = st ++ flat_map h l.
Proof.
  intros Hbody l. unfold forEach.
  induction l as [| x l IH]; intros st; simpl.
  - now rewrite app_nil_r.
  - rewrite IH, Hbody, <- app_assoc. reflexivity.
Qed.

Lemma analyze_segments (code : jsstring) :
  analyze code = nodeFindings code ++ blockingFindings code ++ fixedFindings code.
Proof.
  unfold analyze. cbv zeta.
  rewrite (forEach_append _
    (fun api => when (mentionsModule code api) (nodeIssue api)))
    by (intros; apply push_when).
  rewrite (forEach_append _
    (fun op => when (includes code (fst op)) (blockingIssue (fst op) (snd op))))
    by (intros [pattern fix'] st; apply push_when).
  rewrite !push_when.
  unfold nodeFindings, blockingFindings, fixedFindings.
  rewrite <- !app_assoc. reflexivity.
Qed.

Lemma in_when (b : bool) (i j : Finding) :
  In j (when b i) <-> b = true /\ j = i.
Proof.
  destruct b; simpl; split.
  - intros [H | []]; auto.
  - intros [_ H]; auto.
  - intros [].
  - intros [H _]; discriminate.
Qed.

Lemma in_nodeFindings (code : jsstring) (i : Finding) :
  In i (nodeFindings code) <->
  exists api, In api nodeAPIs /\ mentionsModule code api = true /\ i = nodeIssue api.
Proof.
  unfold nodeFindings. rewrite in_flat_map.
  split; intros [api [Hin H]]; exists api; split; auto;
    [apply in_when in H | apply in_when]; exact H.
Qed.

Lemma in_blockingFindings (code : jsstring) (i : Finding) :
  In i (blockingFindings code) <->
  exists op, In op blockingOps /\ includes code (fst op) = true /\
             i = blockingIssue (fst op) (snd op).
Proof.
  unfold blockingFindings. rewrite in_flat_map.
  split; intros [op [Hin H]]; exists op; split; auto;
    [apply in_when in H | apply in_when]; exact H.
Qed.

Lemma in_analyze (code : jsstring) (i : Finding) :
  In i (analyze code) <->
  In i (nodeFindings code) \/ In i (blockingFindings code) \/ In i (fixedFindings code).
Proof. rewrite analyze_segments, !in_app_iff. reflexivity. Qed.

Lemma in_fixedFindings (code : jsstring) (i : Finding) :
  In i (fixedFindings code) ->
  i = timersIssue \/ i = globalStateIssue \/ i = errorHandlingIssue \/
  i = defaultExportIssue \/ i = fetchHandlerIssue \/ i = envParameterIssue \/
  i = responseIssue \/ i = waitUntilIssue.
Proof.
  unfold fixedFindings. rewrite !in_app_iff, !in_when. tauto.
Qed.

(** Splits a membership in [analyze code] into the rule that pushed it. *)
Ltac by_rule H :=
  apply in_analyze in H;
  destruct H as [H | [H | H]];
  [ apply in_nodeFindings in H; destruct H as (?api & ?Hapi & ?Hm & H)
  | apply in_blockingFindings in H; destruct H as (?op & ?Hop & ?Hinc & H)
  | ].

(** Two findings with different titles are different. *)
Ltac by_title H :=
  let Ht := fresh "Ht" in
  assert (Ht := f_equal title H); cbv in Ht; discriminate Ht.

Lemma fixed_not_node (code : jsstring) (i : Finding) :
  In i (fixedFindings code) -> forall api, i <> nodeIssue api.
Proof.
  intros H api E. apply in_fixedFindings in H.
  repeat (destruct H as [H | H]); rewrite H in E; by_title E.
Qed.

Lemma blocking_not_node (code : jsstring) (i : Finding) :
  In i (blockingFindings code) -> forall api, i <> nodeIssue api.
Proof.
  intros H api E. apply in_blockingFindings in H.
  destruct H as (op & _ & _ & H). rewrite H in E. by_title E.
Qed.

Lemma nodeIssue_inj (a b : jsstring) : nodeIssue a = nodeIssue b -> a = b.
Proof.
  intros H. assert (Ht := f_equal title H). cbn [title nodeIssue] in Ht.
  apply app_inv_head in Ht. apply app_inv_tail in Ht. exact Ht.
Qed.

(** A deny-list finding is pushed exactly by the check of its module. *)
Lemma nodeIssue_emitted (code api : jsstring) :
  In api nodeAPIs ->
  (In (nodeIssue api) (analyze code) <-> mentionsModule code api = true).
Proof.
  intros Hin. split.
  - intros H. by_rule H.
    + apply nodeIssue_inj in H. subst. assumption.
    + symmetry in H. by_title H.
    + exfalso. exact (fixed_not_node _ _ H api eq_refl).
  - intros Hm. apply in_analyze. left. apply in_nodeFindings.
    exists api. auto.
Qed.

(** The tail of the catalog: a fixed finding is pushed exactly when its own
    condition holds. *)
Ltac fixed_emitted :=
  let H := fresh "H" in
  let Hc := fresh "Hc" in
  let E := fresh "E" in
  split;
  [ intros H; by_rule H; [by_title H | by_title H |];
    unfold fixedFindings in H; rewrite !in_app_iff, !in_when in H;
    repeat (destruct H as [H | H]); destruct H as [Hc E];
    try by_title E; exact Hc
  | intros Hc; apply in_analyze; right; right;
    unfold fixedFindings; rewrite !in_app_iff, !in_when;
    repeat first [ split; [exact Hc | reflexivity]
                 | left; split; [exact Hc | reflexivity]
                 | right ] ].

Lemma errorHandlingIssue_emitted (code : jsstring) :
  In errorHandlingIssue (analyze code) <->
  search asyncRegex code && negb (includes code (lit "try")) &&
  negb (includes code (lit "catch")) = true.
Proof. fixed_emitted. Qed.

Lemma envParameterIssue_emitted (code : jsstring) :
  In envParameterIssue (analyze code) <->
  includes code (lit "fetch(request)") &&
  negb (includes code (lit "fetch(request, env")) = true.
Proof. fixed_emitted. Qed.

Lemma waitUntilIssue_emitted (code : jsstring) :
  In waitUntilIssue (analyze code) <->
  (includes code (lit "await") || includes code (lit "fetch(")) &&
  negb (includes code (lit "waitUntil")) = true.
Proof. fixed_emitted. Qed.

(** ** The analyzer on the texts of the specification *)

(** C1, as stated, fails: on the scenario-1 text the deferred-work
    (ctx.waitUntil) finding is not absent from the findings. *)
Lemma scenario1_waitUntil_not_absent :
  ~ ~ In waitUntilIssue (analyze scenario1).
Proof.
  intros H. apply H. apply (proj2 (waitUntilIssue_emitted scenario1)).
  vm_compute. reflexivity.
Qed.

(** C1, amended: the scenario-1 text contains no [await], yet it contains
    [fetch(] and no [waitUntil]; the rule fires on either trigger, so the
    INFO finding about ctx.waitUntil is the last of the five findings. *)
Theorem scenario1_waitUntil_fires :
  includes scenario1 (lit "await") = false /\
  includes scenario1 (lit "fetch(") = true /\
  includes scenario1 (lit "waitUntil") = false /\
  severity waitUntilIssue = INFO /\
  analyze scenario1 =
    [ nodeIssue (lit "fs");
      blockingIssue (lit "readFileSync") (lit "Use KV.get() or R2 fetch with await");
      errorHandlingIssue; envParameterIssue; waitUntilIssue ].
Proof. repeat apply conj; vm_compute; reflexivity. Qed.

(** C2: the empty text yields exactly the missing-default-export and the
    missing-fetch-handler findings, both of severity ERROR, and nothing else. *)
Theorem empty_text_two_errors :
  analyze (lit "") = [defaultExportIssue; fetchHandlerIssue] /\
  severity defaultExportIssue = ERROR /\
  severity fetchHandlerIssue = ERROR.
Proof. repeat apply conj; vm_compute; reflexivity. Qed.

(** C3, as stated, fails: a text that calls [fetch(request)] with the single
    argument, next to a three-parameter handler, gets no missing-env finding. *)
Lemma forwardingWorker_no_env_finding :
  includes forwardingWorker (lit "fetch(request)") = true /\
  ~ In envParameterIssue (analyze forwardingWorker).
Proof.
  split; [vm_compute; reflexivity |].
  intros H. apply (proj1 (envParameterIssue_emitted forwardingWorker)) in H.
  vm_compute in H. discriminate H.
Qed.

(** C3, amended: a text that contains [fetch(request)] and nowhere contains
    [fetch(request, env] gets the missing-env-parameter INFO finding. *)
Theorem env_parameter_rule (code : jsstring) :
  includes code (lit "fetch(request)") = true ->
  includes code (lit "fetch(request, env") = false ->
  In envParameterIssue (analyze code) /\ severity envParameterIssue = INFO.
Proof.
  intros H1 H2. split; [| reflexivity].
  apply (proj2 (envParameterIssue_emitted code)). rewrite H1, H2. reflexivity.
Qed.

Lemma env_parameter_rule_witness :
  In envParameterIssue (analyze (lit "export default { fetch(request) { } }")).
Proof.
  apply (env_parameter_rule (lit "export default { fetch(request) { } }"));
    vm_compute; reflexivity.
Defined.

(** C8: for a module of the deny-list, each of the forms [from 'm'],
    [from "m"], [require('m')] and [require("m")] occurring in the text
    makes the analyzer emit the CRITICAL finding of that module. *)
Theorem module_reference_any_quote (code m : jsstring) :
  In m nodeAPIs ->
  includes code (lit "from '" ++ m ++ lit "'") = true \/
  includes code (lit "from " ++ dq ++ m ++ dq) = true \/
  includes code (lit "require('" ++ m ++ lit "')") = true \/
  includes code (lit "require(" ++ dq ++ m ++ dq ++ lit ")") = true ->
  In (nodeIssue m) (analyze code) /\ severity (nodeIssue m) = CRITICAL.
Proof.
  intros Hin H. split; [| reflexivity].
  apply (proj2 (nodeIssue_emitted code m Hin)).
  unfold mentionsModule.
  destruct H as [H | [H | [H | H]]]; rewrite H;
    rewrite ?orb_true_r; reflexivity.
Qed.

Lemma module_reference_any_quote_witness :
  In (nodeIssue (lit "fs")) (analyze doubleQuotedImport).
Proof.
  apply (module_reference_any_quote doubleQuotedImport (lit "fs")).
  - vm_compute. left. reflexivity.
  - right. left. vm_compute. reflexivity.
Defined.

(** C9: the letters t, r, y anywhere in the text, be it inside another word,
    keep the missing-error-handling WARNING out of the findings. *)
Theorem try_substring_silences_error_handling (code : jsstring) :
  includes code (lit "try") = true ->
  forall i, In i (analyze code) -> title i <> title errorHandlingIssue.
Proof.
  intros Htry i H. by_rule H.
  - subst i. intros E. cbv in E. discriminate E.
  - subst i. intros E. cbv in E. discriminate E.
  - unfold fixedFindings in H. rewrite !in_app_iff, !in_when in H.
    repeat (destruct H as [H | H]); destruct H as [Hc ->];
      try (intros E; cbv in E; discriminate E).
    rewrite Htry in Hc. simpl in Hc. rewrite andb_false_r in Hc.
    discriminate Hc.
Qed.

Lemma try_substring_silences_error_handling_witness :
  search asyncRegex countryLookup = true /\
  includes countryLookup (lit "try {") = false /\
  includes countryLookup (lit "catch") = false /\
  forall i, In i (analyze countryLookup) -> title i <> title errorHandlingIssue.
Proof.
  repeat apply conj; try (vm_compute; reflexivity).
  apply (try_substring_silences_error_handling countryLookup).
  vm_compute. reflexivity.
Defined.

Lemma no_critical_on_imports :
  forallb (fun api =>
    forallb (fun i => negb (eqb (severity i) CRITICAL))
      (analyze (sideEffectImport api) ++ analyze (dynamicImport api)))
    nodeAPIs = true.
Proof. vm_compute. reflexivity. Qed.

(** C10: the CRITICAL finding of a deny-listed module is emitted only when
    one of the four exact forms occurs; the side-effect import [import 'm']
    and the dynamic [import('m')] of such a module give no CRITICAL finding. *)
Theorem module_reference_only_four_forms (api : jsstring) :
  In api nodeAPIs ->
  (forall code, In (nodeIssue api) (analyze code) ->
     includes code (lit "from '" ++ api ++ lit "'") = true \/
     includes code (lit "from " ++ dq ++ api ++ dq) = true \/
     includes code (lit "require('" ++ api ++ lit "')") = true \/
     includes code (lit "require(" ++ dq ++ api ++ dq ++ lit ")") = true) /\
  (forall i, In i (analyze (sideEffectImport api)) -> severity i <> CRITICAL) /\
  (forall i, In i (analyze (dynamicImport api)) -> severity i <> CRITICAL).
Proof.
  intros Hin. split.
  - intros code H. apply (proj1 (nodeIssue_emitted code api Hin)) in H.
    unfold mentionsModule in H. rewrite !orb_true_iff in H. tauto.
  - assert (Hall := no_critical_on_imports).
    rewrite forallb_forall in Hall. specialize (Hall api Hin).
    rewrite forallb_forall in Hall.
    split; intros i Hi E; specialize (Hall i);
      rewrite in_app_iff in Hall;
      [ specialize (Hall (or_introl Hi)) | specialize (Hall (or_intror Hi)) ];
      rewrite E, eqb_refl in Hall; discriminate Hall.
Qed.

Lemma module_reference_only_four_forms_witness :
  ~ In (nodeIssue (lit "fs")) (analyze (lit "import 'fs'")) /\
  ~ In (nodeIssue (lit "fs")) (analyze (lit "import('fs')")).
Proof.
  assert (Hin : In (lit "fs") nodeAPIs) by (vm_compute; left; reflexivity).
  destruct (module_reference_only_four_forms (lit "fs") Hin) as (_ & Hs & Hd).
  split; intros H; [apply (Hs _ H) | apply (Hd _ H)]; reflexivity.
Defined.

(** ** The report *)

Lemma forEachIndexed_appendIssue (l : list Finding) (i : nat) (result : jsstring) :
  forEachIndexed l i appendIssue result = result ++ numberedFrom (i + 1) l.
Proof.
  revert i result. induction l as [| x l IH]; intros i result.
  - unfold numberedFrom. simpl. now rewrite app_nil_r.
  - cbn [forEachIndexed]. rewrite IH. unfold appendIssue, numberedFrom.
    cbn [length seq combine map concat fst snd].
    rewrite <- app_assoc. unfold numberedItem.
    replace (S i + 1) with (S (i + 1)) by lia. reflexivity.
Qed.

Lemma length_ofSeverity (s : Severity) (f : list Finding) :
  length (ofSeverity s f) = countSeverity (severityName s) f.
Proof.
  unfold ofSeverity. induction f as [| i f IH]; simpl; [reflexivity |].
  destruct (eqb (severity i) (severityName s)); simpl; now rewrite IH.
Qed.

Lemma length_nonzero {A : Type} (f : list A) : f <> [] -> (length f =? 0) = false.
Proof. destruct f; [congruence | reflexivity]. Qed.

Lemma format_layout (f : list Finding) :
  f <> [] ->
  format f = countHeader (length f) ++ concat (map (specSection f) (presentSeverities f)).
Proof.
  intros Hne. unfold format. rewrite (length_nonzero f Hne). cbv zeta.
  change (filter (fun i => eqb (severity i) CRITICAL) f) with (ofSeverity Critical f).
  change (filter (fun i => eqb (severity i) ERROR) f) with (ofSeverity Error f).
  change (filter (fun i => eqb (severity i) WARNING) f) with (ofSeverity Warning f).
  change (filter (fun i => eqb (severity i) INFO) f) with (ofSeverity Info f).
  change (criticalMark ++ lit " CRITICAL ISSUES (" ++
          toString (length (ofSeverity Critical f)) ++ lit "):" ++ nl)
    with (sectionLabel Critical ++ lit " (" ++
          toString (length (ofSeverity Critical f)) ++ lit "):" ++ nl).
  change (errorsMark ++ lit " ERRORS (" ++
          toString (length (ofSeverity Error f)) ++ lit "):" ++ nl)
    with (sectionLabel Error ++ lit " (" ++
          toString (length (ofSeverity Error f)) ++ lit "):" ++ nl).
  change (warningsMark ++ lit " WARNINGS (" ++
          toString (length (ofSeverity Warning f)) ++ lit "):" ++ nl)
    with (sectionLabel Warning ++ lit " (" ++
          toString (length (ofSeverity Warning f)) ++ lit "):" ++ nl).
  change (infoMark ++ lit " SUGGESTIONS (" ++
          toString (length (ofSeverity Info f)) ++ lit "):" ++ nl)
    with (sectionLabel Info ++ lit " (" ++
          toString (length (ofSeverity Info f)) ++ lit "):" ++ nl).
  change (lit "Found " ++ toString (length f) ++ lit " issue(s) in your code:" ++ nl ++ nl)
    with (countHeader (length f)).
  rewrite !forEachIndexed_appendIssue, !length_ofSeverity.
  unfold presentSeverities, severityOrder. cbn [filter].
  destruct (0 <? countSeverity (severityName Critical) f);
    destruct (0 <? countSeverity (severityName Error) f);
    destruct (0 <? countSeverity (severityName Warning) f);
    destruct (0 <? countSeverity (severityName Info) f);
    cbn [map concat]; unfold specSection; cbn [sectionEnd];
    rewrite ?app_nil_r, <- ?app_assoc; reflexivity.
Qed.

Lemma startsWith_app (p b : jsstring) : startsWith (p ++ b) p = true.
Proof. apply startsWith_spec. exists b. reflexivity. Qed.

Lemma countSeverity_existsb (n : jsstring) (f : list Finding) :
  (0 <? countSeverity n f) = existsb (fun i => eqb (severity i) n) f.
Proof.
  induction f as [| i f IH]; simpl; [reflexivity |].
  destruct (eqb (severity i) n); simpl; [reflexivity | exact IH].
Qed.

Lemma nth_error_combine_seq {A : Type} (l : list A) (k start : nat) (x : A) :
  nth_error l k = Some x ->
  nth_error (combine (seq start (length l)) l) k = Some (start + k, x).
Proof.
  revert k start. induction l as [| y l IH]; intros [| k] start; simpl; try discriminate.
  - intros H; inversion H. now rewrite Nat.add_0_r.
  - intros H. rewrite (IH k (S start) H). f_equal. f_equal. lia.
Qed.

(** C5: in the report of a non-empty finding list, the header states the
    length of the list, the header of each section states how many findings
    of the list have that severity, and the finding at position [k] (from 0)
    among those of its severity is printed under the number [k + 1]. *)
Theorem report_counts_and_numbering (f : list Finding) :
  f <> [] ->
  format f =
    lit "Found " ++ toString (length f) ++ lit " issue(s) in your code:" ++ nl ++ nl ++
    concat (map (fun s =>
      sectionLabel s ++ lit " (" ++ toString (countSeverity (severityName s) f) ++
      lit "):" ++ nl ++
      concat (map (fun p => numberedItem (fst p) (snd p))
                (combine (seq 1 (countSeverity (severityName s) f)) (ofSeverity s f))) ++
      sectionEnd s) (presentSeverities f)) /\
  forall s k issue,
    nth_error (ofSeverity s f) k = Some issue ->
    nth_error (combine (seq 1 (countSeverity (severityName s) f)) (ofSeverity s f)) k =
      Some (k + 1, issue).
Proof.
  intros Hne. split.
  - rewrite (format_layout f Hne). unfold countHeader, specSection, numberedFrom.
    rewrite <- !app_assoc. do 6 f_equal.
    apply map_ext. intros s. now rewrite length_ofSeverity.
  - intros s k issue H. rewrite <- length_ofSeverity.
    rewrite (nth_error_combine_seq _ k 1 issue H). f_equal. f_equal. lia.
Qed.

Lemma report_counts_and_numbering_witness :
  startsWith (format twoCriticalOneInfo) (lit "Found 3 issue(s)") = true /\
  nth_error (combine (seq 1 (countSeverity CRITICAL twoCriticalOneInfo))
               (ofSeverity Critical twoCriticalOneInfo)) 1 =
    Some (2, blockingIssue (lit "execSync") (lit "Not supported - rethink your architecture")).
Proof.
  destruct (report_counts_and_numbering twoCriticalOneInfo) as [Hf Hn];
    [discriminate |].
  split.
  - rewrite Hf. vm_compute. reflexivity.
  - apply (Hn Critical 1). vm_compute. reflexivity.
Defined.

(** C6: when the analyzer finds nothing, [execute] returns the fixed
    all-clear message, which is neither the empty string nor a header that
    announces zero issues. *)
Theorem no_findings_all_clear (code : jsstring) (filename : option jsstring)
    (console : Console) :
  analyze code = [] ->
  fst (execute code filename console) = allClear /\
  fst (execute code filename console) <> [] /\
  includes (fst (execute code filename console)) (lit "Found 0 issue(s)") = false.
Proof.
  intros H.
  assert (E : fst (execute code filename console) = allClear).
  { unfold execute, bind, console_log, ret. cbn [fst]. rewrite H. reflexivity. }
  rewrite E. repeat apply conj.
  - reflexivity.
  - discriminate.
  - vm_compute. reflexivity.
Qed.

Lemma no_findings_all_clear_witness :
  fst (execute cleanWorker None []) = allClear.
Proof.
  apply (no_findings_all_clear cleanWorker None []).
  vm_compute. reflexivity.
Defined.

(** ** The pattern matcher against the words of a pattern *)

Section RegExpFacts.

Lemma nullable_spec (r : regex) : nullable r = true <-> lang r [].
Proof.
  split.
  - induction r as [| | f | r1 IH1 r2 IH2 | r1 IH1 r2 IH2 | r IH]; simpl; intros H;
      try discriminate.
    + constructor.
    + apply andb_true_iff in H. destruct H as [H1 H2].
      apply (lang_seq r1 r2 [] []); auto.
    + apply orb_true_iff in H. destruct H as [H | H];
        [apply lang_alt_l | apply lang_alt_r]; auto.
    + constructor.
  - intros H. remember [] as w eqn:E.
    induction H as [| f c Hc | r1 r2 u v H1 IH1 H2 IH2 | r1 r2 u H IH
                    | r1 r2 u H IH | r | r u v H1 IH1 H2 IH2]; simpl; auto;
      try discriminate.
    + apply app_eq_nil in E. destruct E. now rewrite IH1, IH2.
    + now rewrite IH.
    + rewrite IH by assumption. apply orb_true_r.
Qed.

Lemma deriv_sound (c : N) (r : regex) :
  forall s, lang (deriv c r) s -> lang r (c :: s).
Proof.
  induction r as [| | f | r1 IH1 r2 IH2 | r1 IH1 r2 IH2 | r IH]; simpl; intros s H.
  - inversion H.
  - inversion H.
  - destruct (f c) eqn:Hf; inversion H; subst. now constructor.
  - destruct (nullable r1) eqn:Hn.
    + inversion H as [| | | ? ? ? H' | ? ? ? H' | |]; subst.
      * inversion H' as [| | ? ? u v Hu Hv | | | |]; subst.
        apply (lang_seq r1 r2 (c :: u) v); auto.
      * apply (lang_seq r1 r2 [] (c :: s)); auto. now apply nullable_spec.
    + inversion H as [| | ? ? u v Hu Hv | | | |]; subst.
      apply (lang_seq r1 r2 (c :: u) v); auto.
  - inversion H; subst; [apply lang_alt_l | apply lang_alt_r]; auto.
  - inversion H as [| | ? ? u v Hu Hv | | | |]; subst.
    apply (lang_star_cons r (c :: u) v); auto.
Qed.

Lemma deriv_complete (r : regex) (w : jsstring) :
  lang r w -> forall c s, w = c :: s -> lang (deriv c r) s.
Proof.
  intros H.
  induction H as [| f c' Hc | r1 r2 u v H1 IH1 H2 IH2 | r1 r2 u H IH
                  | r1 r2 u H IH | r | r u v H1 IH1 H2 IH2]; intros c s E; simpl.
  - discriminate.
  - inversion E; subst. rewrite Hc. constructor.
  - destruct u as [| x u].
    + simpl in E. apply nullable_spec in H1. rewrite H1.
      apply lang_alt_r. now apply IH2.
    + injection E as Hx Hs. subst x s.
      assert (Hd : lang (Seq (deriv c r1) r2) (u ++ v))
        by (constructor; auto).
      destruct (nullable r1); [now apply lang_alt_l | exact Hd].
  - apply lang_alt_l. now apply IH.
  - apply lang_alt_r. now apply IH.
  - discriminate.
  - destruct u as [| x u].
    + simpl in E. now apply IH2.
    + injection E as Hx Hs. subst x s. constructor; auto.
Qed.

Lemma matchesAt_spec (s : jsstring) :
  forall r, matchesAt r s = true <-> exists u v, s = u ++ v /\ lang r u.
Proof.
  induction s as [| c s IH]; intros r; simpl.
  - rewrite orb_false_r, nullable_spec. split.
    + intros H. exists [], []. auto.
    + intros (u & v & E & H). symmetry in E. apply app_eq_nil in E.
      destruct E; subst. exact H.
  - rewrite orb_true_iff, nullable_spec, IH. split.
    + intros [H | (u & v & E & H)].
      * exists [], (c :: s). auto.
      * exists (c :: u), v. split; [now rewrite E | now apply deriv_sound].
    + intros (u & v & E & H). destruct u as [| x u].
      * left. exact H.
      * right. injection E as Hx Hs. subst x s. exists u, v.
        split; [reflexivity |]. now apply (deriv_complete r (c :: u)).
Qed.

Lemma search_spec (r : regex) (s : jsstring) :
  search r s = true <-> exists a u b, s = a ++ u ++ b /\ lang r u.
Proof.
  induction s as [| c s IH]; cbn [search].
  - rewrite orb_false_r, matchesAt_spec. split.
    + intros (u & v & E & H). exists [], u, v. auto.
    + intros (a & u & b & E & H). destruct a; [| discriminate].
      exists u, b. auto.
  - rewrite orb_true_iff, matchesAt_spec, IH. split.
    + intros [(u & v & E & H) | (a & u & b & E & H)].
      * exists [], u, v. auto.
      * exists (c :: a), u, b. split; [now rewrite E | exact H].
    + intros (a & u & b & E & H). destruct a as [| x a].
      * left. exists u, b. auto.
      * right. injection E as Hx Hs. subst x s. exists a, u, b. auto.
Qed.

Lemma searchLines_spec (r : regex) (s : jsstring) :
  forall bol,
    searchLines bol r s = true <->
    exists a u b, s = a ++ u ++ b /\ lang r u /\ lineStart bol a = true.
Proof.
  induction s as [| c s IH]; intros bol; cbn [searchLines].
  - rewrite orb_false_r, andb_true_iff, matchesAt_spec. split.
    + intros (Hb & u & v & E & H). exists [], u, v. auto.
    + intros (a & u & b & E & H & Hb). destruct a; [| discriminate].
      split; [exact Hb | exists u, b; auto].
  - rewrite orb_true_iff, andb_true_iff, matchesAt_spec, IH. split.
    + intros [(Hb & u & v & E & H) | (a & u & b & E & H & Hb)].
      * exists [], u, v. auto.
      * exists (c :: a), u, b. repeat split; [now rewrite E | exact H |].
        destruct a as [| x a]; [exact Hb | exact Hb].
    + intros (a & u & b & E & H & Hb). destruct a as [| x a].
      * left. split; [exact Hb | exists u, b; auto].
      * right. injection E as Hx Hs. subst x s. exists a, u, b.
        repeat split; auto. destruct a as [| y a]; exact Hb.
Qed.

End RegExpFacts.

(** ** The words of the two patterns of the analyzer *)

Section PatternWords.

Lemma lang_Seq_iff (r1 r2 : regex) (w : jsstring) :
  lang (Seq r1 r2) w <-> exists u v, w = u ++ v /\ lang r1 u /\ lang r2 v.
Proof.
  split.
  - intros H. inversion H; subst. eauto.
  - intros (u & v & -> & H1 & H2). now constructor.
Qed.

Lemma lang_Alt_iff (r1 r2 : regex) (w : jsstring) :
  lang (Alt r1 r2) w <-> lang r1 w \/ lang r2 w.
Proof.
  split.
  - intros H. inversion H; subst; auto.
  - intros [H | H]; [apply lang_alt_l | apply lang_alt_r]; exact H.
Qed.

Lemma lang_Class_iff (f : N -> bool) (w : jsstring) :
  lang (Class f) w <-> exists c, w = [c] /\ f c = true.
Proof.
  split.
  - intros H. inversion H; subst. eauto.
  - intros (c & -> & H). now constructor.
Qed.

Lemma lang_Lit_iff (p w : jsstring) : lang (Lit p) w <-> w = p.
Proof.
  revert w. induction p as [| c p IH]; intros w; cbn [Lit].
  - split; [intros H; now inversion H | intros ->; constructor].
  - rewrite lang_Seq_iff. split.
    + intros (u & v & -> & Hu & Hv). apply lang_Class_iff in Hu.
      destruct Hu as (x & -> & Hx). apply N.eqb_eq in Hx. apply IH in Hv.
      now subst.
    + intros ->. exists [c], p. repeat split.
      * constructor. apply N.eqb_refl.
      * now apply IH.
Qed.

Lemma lang_Star_Class_iff (f : N -> bool) (w : jsstring) :
  lang (Star (Class f)) w <-> forallb f w = true.
Proof.
  split.
  - intros H. remember (Star (Class f)) as r eqn:E.
    induction H as [| | | | | r | r u v H1 IH1 H2 IH2]; try discriminate.
    + reflexivity.
    + injection E as ->. inversion H1; subst. simpl.
      rewrite IH2 by reflexivity. now rewrite H0.
  - induction w as [| c w IH]; simpl; intros H.
    + constructor.
    + apply andb_true_iff in H. destruct H as [Hc Hw].
      apply (lang_star_cons (Class f) [c] w); [now constructor | now apply IH].
Qed.

Lemma lang_Plus_Class_iff (f : N -> bool) (w : jsstring) :
  lang (Plus (Class f)) w <-> w <> [] /\ forallb f w = true.
Proof.
  unfold Plus. rewrite lang_Seq_iff. split.
  - intros (u & v & -> & Hu & Hv). apply lang_Class_iff in Hu.
    destruct Hu as (c & -> & Hc). apply lang_Star_Class_iff in Hv.
    split; [discriminate | simpl; now rewrite Hc, Hv].
  - intros [Hne H]. destruct w as [| c w]; [congruence |].
    simpl in H. apply andb_true_iff in H. destruct H as [Hc Hw].
    exists [c], w. repeat split.
    + now constructor.
    + now apply lang_Star_Class_iff.
Qed.

(** The words of [/async\s+\w+/]. *)
Lemma lang_asyncRegex (u : jsstring) :
  lang asyncRegex u <->
  exists ws w, u = lit "async" ++ ws ++ w /\
    ws <> [] /\ forallb isWhiteSpace ws = true /\
    w <> [] /\ forallb isWordChar w = true.
Proof.
  unfold asyncRegex. rewrite lang_Seq_iff. split.
  - intros (u1 & v1 & -> & H1 & H2). apply lang_Lit_iff in H1. subst u1.
    apply lang_Seq_iff in H2. destruct H2 as (ws & w & -> & Hws & Hw).
    apply lang_Plus_Class_iff in Hws. apply lang_Plus_Class_iff in Hw.
    exists ws, w. tauto.
  - intros (ws & w & -> & Hws1 & Hws2 & Hw1 & Hw2).
    exists (lit "async"), (ws ++ w). repeat split.
    + now apply lang_Lit_iff.
    + apply lang_Seq_iff. exists ws, w.
      repeat split; apply lang_Plus_Class_iff; auto.
Qed.

(** The words of [(let|var|const)\s+\w+\s*=]. *)
Lemma lang_globalStateRegex (u : jsstring) :
  lang globalStateRegex u <->
  exists kw ws1 w ws2, u = kw ++ ws1 ++ w ++ ws2 ++ lit "=" /\
    In kw [lit "let"; lit "var"; lit "const"] /\
    ws1 <> [] /\ forallb isWhiteSpace ws1 = true /\
    w <> [] /\ forallb isWordChar w = true /\
    forallb isWhiteSpace ws2 = true.
Proof.
  unfold globalStateRegex. rewrite lang_Seq_iff. split.
  - intros (kw & v1 & -> & Hkw & H1).
    apply lang_Seq_iff in H1. destruct H1 as (ws1 & v2 & -> & Hws1 & H2).
    apply lang_Seq_iff in H2. destruct H2 as (w & v3 & -> & Hw & H3).
    apply lang_Seq_iff in H3. destruct H3 as (ws2 & e & -> & Hws2 & He).
    apply lang_Lit_iff in He. subst e.
    apply lang_Plus_Class_iff in Hws1. apply lang_Plus_Class_iff in Hw.
    apply lang_Star_Class_iff in Hws2.
    exists kw, ws1, w, ws2. repeat split; try tauto.
    rewrite !lang_Alt_iff, !lang_Lit_iff in Hkw. simpl. intuition.
  - intros (kw & ws1 & w & ws2 & -> & Hkw & Hws1 & Hws1' & Hw & Hw' & Hws2).
    exists kw, (ws1 ++ w ++ ws2 ++ lit "="). repeat split.
    + rewrite !lang_Alt_iff, !lang_Lit_iff. simpl in Hkw. intuition.
    + apply lang_Seq_iff. exists ws1, (w ++ ws2 ++ lit "=").
      repeat split; [now apply lang_Plus_Class_iff |].
      apply lang_Seq_iff. exists w, (ws2 ++ lit "=").
      repeat split; [now apply lang_Plus_Class_iff |].
      apply lang_Seq_iff. exists ws2, (lit "=").
      repeat split; [now apply lang_Star_Class_iff | now apply lang_Lit_iff].
Qed.

End PatternWords.

(** ** When each of the remaining fixed findings is pushed *)

Lemma timersIssue_emitted (code : jsstring) :
  In timersIssue (analyze code) <->
  includes code (lit "setTimeout") || includes code (lit "setInterval") = true.
Proof. fixed_emitted. Qed.

Lemma globalStateIssue_emitted (code : jsstring) :
  In globalStateIssue (analyze code) <->
  searchLines true globalStateRegex code && includes code (lit "export default") = true.
Proof. fixed_emitted. Qed.

Lemma defaultExportIssue_emitted (code : jsstring) :
  In defaultExportIssue (analyze code) <->
  negb (includes code (lit "export default")) = true.
Proof. fixed_emitted. Qed.

Lemma fetchHandlerIssue_emitted (code : jsstring) :
  In fetchHandlerIssue (analyze code) <->
  negb (includes code (lit "fetch(")) && negb (includes code (lit "fetch (")) = true.
Proof. fixed_emitted. Qed.

Lemma responseIssue_emitted (code : jsstring) :
  In responseIssue (analyze code) <->
  includes code (lit "return ") && negb (includes code (lit "Response")) = true.
Proof. fixed_emitted. Qed.

(** ** The analyzer as a filter of the catalog *)

Lemma flat_map_when {A : Type} (c : A -> bool) (g : A -> Finding) (l : list A) :
  flat_map (fun x => when (c x) (g x)) l = map g (filter c l).
Proof.
  induction l as [| x l IH]; simpl; [reflexivity |].
  destruct (c x); simpl; now rewrite IH.
Qed.

Lemma filter_map_comm {A B : Type} (p : B -> bool) (g : A -> B) (l : list A) :
  filter p (map g l) = map g (filter (fun x => p (g x)) l).
Proof.
  induction l as [| x l IH]; simpl; [reflexivity |].
  destruct (p (g x)); simpl; now rewrite IH.
Qed.

Lemma fired_cons (code : jsstring) (r : Rule) (l : list Rule) :
  map finding (filter (fun r => trigger r code) (r :: l)) =
  when (trigger r code) (finding r) ++ map finding (filter (fun r => trigger r code) l).
Proof. cbn [filter]. destruct (trigger r code); reflexivity. Qed.

Lemma analyze_catalog (code : jsstring) :
  analyze code = map finding (filter (fun r => trigger r code) catalog).
Proof.
  rewrite analyze_segments. unfold catalog.
  rewrite !filter_app, !map_app, !filter_map_comm, !map_map. cbn [trigger finding].
  unfold nodeFindings, blockingFindings. rewrite !flat_map_when.
  do 2 f_equal. unfold fixedFindings.
  rewrite !fired_cons. cbn [trigger finding filter map].
  rewrite app_nil_r. reflexivity.
Qed.

Lemma distinctb_NoDup (l : list jsstring) : distinctb l = true -> NoDup l.
Proof.
  induction l as [| x l IH]; simpl; intros H; constructor.
  - apply andb_true_iff in H. destruct H as [H _]. intros Hin.
    apply negb_true_iff in H.
    assert (E : existsb (eqb x) l = true)
      by (apply existsb_exists; exists x; split; [exact Hin | apply eqb_refl]).
    congruence.
  - apply IH. apply andb_true_iff in H. tauto.
Qed.

Lemma NoDup_map_filter {A B : Type} (g : A -> B) (p : A -> bool) (l : list A) :
  NoDup (map g l) -> NoDup (map g (filter p l)).
Proof.
  induction l as [| x l IH]; simpl; intros H; [constructor |].
  inversion H as [| ? ? Hx Hl]; subst.
  destruct (p x); simpl; [| now apply IH].
  constructor; [| now apply IH].
  intros Hin. apply Hx. apply in_map_iff in Hin. destruct Hin as (y & E & Hy).
  apply in_map_iff. exists y. split; [exact E |].
  apply filter_In in Hy. tauto.
Qed.

Lemma catalog_titles_distinct : NoDup (map (fun r => title (finding r)) catalog).
Proof. apply distinctb_NoDup. vm_compute. reflexivity. Qed.

Lemma catalog_severities_known :
  forallb (fun r => knownSeverity (finding r)) catalog = true.
Proof. vm_compute. reflexivity. Qed.

Lemma analyze_titles_NoDup (code : jsstring) : NoDup (map title (analyze code)).
Proof.
  rewrite analyze_catalog, map_map.
  apply NoDup_map_filter. exact catalog_titles_distinct.
Qed.

Lemma analyze_knownSeverity (code : jsstring) (i : Finding) :
  In i (analyze code) -> knownSeverity i = true.
Proof.
  rewrite analyze_catalog. intros H. apply in_map_iff in H.
  destruct H as (r & <- & Hr). apply filter_In in Hr. destruct Hr as [Hr _].
  pose proof catalog_severities_known as Hall.
  rewrite forallb_forall in Hall. exact (Hall r Hr).
Qed.

Lemma countSeverity_known_sum (f : list Finding) :
  (forall i, In i f -> knownSeverity i = true) ->
  countSeverity CRITICAL f + countSeverity ERROR f +
  countSeverity WARNING f + countSeverity INFO f = length f.
Proof.
  induction f as [| i f IH]; intros Hall; [reflexivity |].
  assert (Hi := Hall i (or_introl eq_refl)).
  assert (IH' := IH (fun j Hj => Hall j (or_intror Hj))).
  cbn [countSeverity length]. unfold knownSeverity in Hi.
  destruct (eqb (severity i) CRITICAL) eqn:E1;
    destruct (eqb (severity i) ERROR) eqn:E2;
    destruct (eqb (severity i) WARNING) eqn:E3;
    destruct (eqb (severity i) INFO) eqn:E4;
    try discriminate Hi;
    repeat match goal with
           | H : eqb _ _ = true |- _ => apply eqb_eq in H
           end;
    try (rewrite E1 in *; discriminate);
    try (rewrite E2 in *; discriminate);
    try (rewrite E3 in *; discriminate);
    lia.
Qed.

Lemma includes_prefix (s p q : jsstring) :
  includes s (p ++ q) = true -> includes s p = true.
Proof.
  rewrite !includes_spec. intros (a & b & ->).
  exists a, (q ++ b). now rewrite <- app_assoc.
Qed.

Lemma includes_extend (pre s post p : jsstring) :
  includes s p = true -> includes (pre ++ s ++ post) p = true.
Proof.
  rewrite !includes_spec. intros (a & b & ->).
  exists (pre ++ a), (b ++ post). now rewrite <- !app_assoc.
Qed.

Lemma includes_trans (s p q : jsstring) :
  includes s p = true -> includes p q = true -> includes s q = true.
Proof.
  rewrite !includes_spec. intros (a & b & ->) (a' & b' & ->).
  exists (a ++ a'), (b' ++ b). now rewrite <- !app_assoc.
Qed.

(** ** Invariants of the findings *)

(** The findings of a text are the findings of the catalog rules whose
    trigger holds on it, in catalog order whatever the positions of the
    patterns in the text; there are at most 31 of them. *)
Theorem findings_follow_catalog (code : jsstring) :
  analyze code = map finding (filter (fun r => trigger r code) catalog) /\
  length (analyze code) <= 31.
Proof.
  split; [apply analyze_catalog |].
  rewrite analyze_catalog, length_map.
  apply (Nat.le_trans _ (length catalog)); [apply filter_length_le | reflexivity].
Qed.

(** No two findings of a text carry the same title: no rule is reported
    twice, however often its pattern occurs. *)
Theorem no_title_reported_twice (code : jsstring) :
  NoDup (map title (analyze code)).
Proof. apply analyze_titles_NoDup. Qed.

(** Every finding has one of the four severities the report has a section
    for, so that the section counts of a report add up to its header count. *)
Theorem section_counts_add_up (code : jsstring) :
  (forall i, In i (analyze code) ->
     severity i = CRITICAL \/ severity i = ERROR \/
     severity i = WARNING \/ severity i = INFO) /\
  countSeverity CRITICAL (analyze code) + countSeverity ERROR (analyze code) +
  countSeverity WARNING (analyze code) + countSeverity INFO (analyze code) =
  length (analyze code).
Proof.
  split.
  - intros i Hi. apply analyze_knownSeverity in Hi. unfold knownSeverity in Hi.
    rewrite !orb_true_iff, !eqb_eq in Hi. tauto.
  - apply countSeverity_known_sum. apply analyze_knownSeverity.
Qed.

(** Two pairs of rules exclude each other: a text never gets both the
    missing-fetch-handler and the missing-env-parameter findings, nor both
    the global-state and the missing-default-export findings. *)
Theorem exclusive_rules (code : jsstring) :
  ~ (In fetchHandlerIssue (analyze code) /\ In envParameterIssue (analyze code)) /\
  ~ (In globalStateIssue (analyze code) /\ In defaultExportIssue (analyze code)).
Proof.
  split; intros [H1 H2].
  - apply (proj1 (fetchHandlerIssue_emitted code)) in H1.
    apply (proj1 (envParameterIssue_emitted code)) in H2.
    apply andb_true_iff in H1. destruct H1 as [H1 _].
    apply andb_true_iff in H2. destruct H2 as [H2 _].
    change (lit "fetch(request)") with (lit "fetch(" ++ lit "request)") in H2.
    apply includes_prefix in H2. rewrite H2 in H1. discriminate H1.
  - apply (proj1 (globalStateIssue_emitted code)) in H1.
    apply (proj1 (defaultExportIssue_emitted code)) in H2.
    apply andb_true_iff in H1. destruct H1 as [_ H1].
    rewrite H1 in H2. discriminate H2.
Qed.

Lemma mentionsModule_extend (pre code post api : jsstring) :
  mentionsModule code api = true -> mentionsModule (pre ++ code ++ post) api = true.
Proof.
  unfold mentionsModule. rewrite !orb_true_iff.
  intros [[[H | H] | H] | H]; apply (includes_extend pre _ post) in H; tauto.
Qed.

(** CRITICAL findings persist under extension of the text: a text placed
    inside a larger text keeps each of its CRITICAL findings. *)
Theorem critical_findings_persist (pre code post : jsstring) (i : Finding) :
  In i (analyze code) -> severity i = CRITICAL ->
  In i (analyze (pre ++ code ++ post)).
Proof.
  intros H Hsev. by_rule H.
  - subst i. apply in_analyze. left. apply in_nodeFindings.
    exists api. repeat split; auto. now apply mentionsModule_extend.
  - subst i. apply in_analyze. right. left. apply in_blockingFindings.
    exists op. repeat split; auto. now apply includes_extend.
  - exfalso. apply in_fixedFindings in H.
    repeat (destruct H as [H | H]); subst i; cbv in Hsev; discriminate Hsev.
Qed.

Lemma critical_findings_persist_witness :
  In (blockingIssue (lit "readFileSync") (lit "Use KV.get() or R2 fetch with await"))
    (analyze (blockingWorkerBanner ++ blockingWorker ++ nl)).
Proof.
  apply (critical_findings_persist blockingWorkerBanner blockingWorker nl).
  - apply (proj2 (in_analyze blockingWorker _)). right. left.
    apply (proj2 (in_blockingFindings blockingWorker _)).
    exists (lit "readFileSync", lit "Use KV.get() or R2 fetch with await").
    split; [left; reflexivity | split; [vm_compute; reflexivity | reflexivity]].
  - reflexivity.
Defined.

(** The finding of a blocking call is emitted exactly when the call name
    occurs anywhere in the text. *)
Theorem blocking_rule (code pattern fix' : jsstring) :
  In (pattern, fix') blockingOps ->
  (In (blockingIssue pattern fix') (analyze code) <-> includes code pattern = true).
Proof.
  intros Hin. split.
  - intros H. by_rule H.
    + by_title H.
    + assert (Ht := f_equal title H). cbn [title blockingIssue] in Ht.
      apply app_inv_head in Ht. apply app_inv_tail in Ht. now rewrite Ht.
    + exfalso. apply in_fixedFindings in H.
      repeat (destruct H as [H | H]); by_title H.
  - intros H. apply in_analyze. right. left. apply in_blockingFindings.
    exists (pattern, fix'). auto.
Qed.

Lemma blocking_rule_witness :
  In (blockingIssue (lit "execSync") (lit "Not supported - rethink your architecture"))
    (analyze (lit "const myexecSyncWrapper = 1;")).
Proof.
  apply (proj2 (blocking_rule (lit "const myexecSyncWrapper = 1;") (lit "execSync")
                  (lit "Not supported - rethink your architecture")
                  (or_intror (or_intror (or_introl eq_refl))))).
  vm_compute. reflexivity.
Defined.

Lemma one_occurrence_of_title (l : list Finding) (i : Finding) :
  NoDup (map title l) -> In i l ->
  length (filter (fun j => eqb (title j) (title i)) l) = 1.
Proof.
  induction l as [| x l IH]; simpl; intros Hnd Hin; [contradiction |].
  inversion Hnd as [| ? ? Hx Hl]; subst.
  destruct Hin as [-> | Hin].
  - rewrite eqb_refl. simpl. f_equal.
    rewrite (proj2 (length_zero_iff_nil _)); [reflexivity |].
    destruct (filter (fun j => eqb (title j) (title i)) l) as [| y r] eqn:E;
      [reflexivity |].
    exfalso. apply Hx.
    assert (Hy : In y (filter (fun j => eqb (title j) (title i)) l))
      by (rewrite E; left; reflexivity).
    apply filter_In in Hy. destruct Hy as [Hy Ht]. apply eqb_eq in Ht.
    rewrite <- Ht. now apply in_map.
  - destruct (eqb (title x) (title i)) eqn:E.
    + exfalso. apply Hx. apply eqb_eq in E. rewrite E. now apply in_map.
    + now apply IH.
Qed.

(** A text that uses [setTimeout], [setInterval] or both gets the timer
    WARNING exactly once. *)
Theorem timers_reported_once (code : jsstring) :
  includes code (lit "setTimeout") = true \/ includes code (lit "setInterval") = true ->
  length (filter (fun j => eqb (title j) (title timersIssue)) (analyze code)) = 1 /\
  severity timersIssue = WARNING.
Proof.
  intros H. split; [| reflexivity].
  apply one_occurrence_of_title; [apply analyze_titles_NoDup |].
  apply (proj2 (timersIssue_emitted code)).
  destruct H as [H | H]; rewrite H; [reflexivity | apply orb_true_r].
Qed.

Lemma timers_reported_once_witness :
  length (filter (fun j => eqb (title j) (title timersIssue)) (analyze bothTimers)) = 1.
Proof.
  apply (timers_reported_once bothTimers). left. vm_compute. reflexivity.
Defined.

(** ** The report, continued *)

Lemma format_head (f : list Finding) :
  f <> [] -> exists rest, format f = 70%N :: rest.
Proof.
  intros Hne. rewrite (format_layout f Hne). unfold countHeader.
  eexists. reflexivity.
Qed.

(** The all-clear message is returned for the texts without findings and
    for no other text. *)
Theorem all_clear_only_without_findings (code : jsstring)
    (filename : option jsstring) (console : Console) :
  fst (execute code filename console) = allClear <-> analyze code = [].
Proof.
  unfold execute, bind, console_log, ret. cbn [fst].
  split.
  - intros H. destruct (analyze code) as [| i f] eqn:E; [reflexivity |].
    destruct (format_head (i :: f)) as [rest Hr]; [discriminate |].
    rewrite Hr in H. discriminate H.
  - intros ->. reflexivity.
Qed.

Lemma toString_positive (n : nat) :
  n <> 0 -> exists d rest, toString n = d :: rest /\ d <> 48%N.
Proof.
  intros Hn. unfold toString.
  assert (Hnorm : Decimal.unorm (Nat.to_uint n) = Nat.to_uint n)
    by (rewrite <- (Unsigned.to_of (Nat.to_uint n)), Unsigned.of_to; reflexivity).
  destruct (Nat.to_uint n) as [| d | d | d | d | d | d | d | d | d | d] eqn:E;
    try (eexists; eexists; split; [reflexivity | discriminate]).
  - exfalso. exact (unorm_nonnil _ Hnorm).
  - exfalso. unfold Decimal.unorm in Hnorm. rewrite nzhead_D0 in Hnorm.
    destruct (Decimal.nzhead d) eqn:Hd; try (exact (nzhead_nonzero d d (eq_trans Hd Hnorm)));
      try discriminate Hnorm.
    injection Hnorm as <-. apply Hn. apply Unsigned.to_uint_inj. rewrite E. reflexivity.
Qed.

(** Whatever the text, the report is not the empty string and does not open
    with a count of zero issues. *)
Theorem report_never_blank (code : jsstring) (filename : option jsstring)
    (console : Console) :
  fst (execute code filename console) <> [] /\
  startsWith (fst (execute code filename console)) (lit "Found 0") = false.
Proof.
  unfold execute, bind, console_log, ret. cbn [fst].
  destruct (analyze code) as [| i f] eqn:E.
  - split; [discriminate | vm_compute; reflexivity].
  - assert (Hne : i :: f <> []) by discriminate.
    rewrite (format_layout _ Hne). unfold countHeader.
    destruct (toString_positive (length (i :: f))) as (d & rest & Ht & Hd);
      [discriminate |].
    rewrite Ht. split; [discriminate |].
    cbn. apply N.eqb_neq in Hd. rewrite Hd. reflexivity.
Qed.

Lemma includes_refl (s : jsstring) : includes s s = true.
Proof. apply includes_spec. exists [], []. now rewrite app_nil_r. Qed.

Lemma includes_app_l (s t p : jsstring) :
  includes s p = true -> includes (s ++ t) p = true.
Proof. intros H. apply (includes_extend [] s t p H). Qed.

Lemma includes_app_r (s t p : jsstring) :
  includes t p = true -> includes (s ++ t) p = true.
Proof.
  intros H. apply (includes_extend s t [] p) in H. now rewrite app_nil_r in H.
Qed.

Lemma includes_concat_map {A : Type} (g : A -> jsstring) (l : list A) (x : A)
    (p : jsstring) :
  In x l -> includes (g x) p = true -> includes (concat (map g l)) p = true.
Proof.
  intros Hin H. apply in_split in Hin. destruct Hin as (l1 & l2 & ->).
  rewrite map_app, concat_app. cbn [map concat].
  apply includes_app_r, includes_app_l. exact H.
Qed.

Lemma in_numbered (l : list Finding) (i : Finding) (start : nat) :
  In i l ->
  exists k, k < length l /\ In (start + k, i) (combine (seq start (length l)) l).
Proof.
  intros Hin. apply In_nth_error in Hin. destruct Hin as [k Hk].
  exists k. split.
  - apply nth_error_Some. congruence.
  - apply (nth_error_In _ k). now apply nth_error_combine_seq.
Qed.

(** The renderer drops nothing: a finding of the list whose severity is one
    of the four is printed as a numbered item, with its title and its
    description, under a number between 1 and the count of its section. *)
Theorem every_finding_is_printed (f : list Finding) (i : Finding) (s : Severity) :
  In i f -> severity i = severityName s ->
  exists k, 1 <= k <= countSeverity (severityName s) f /\
            includes (format f) (numberedItem k i) = true.
Proof.
  intros Hin Hsev.
  assert (Hne : f <> []) by (intros ->; contradiction).
  assert (Hof : In i (ofSeverity s f)).
  { apply filter_In. split; [exact Hin | rewrite Hsev; apply eqb_refl]. }
  destruct (in_numbered _ i 1 Hof) as (k & Hk & Hnum).
  rewrite length_ofSeverity in Hk.
  exists (1 + k). split; [lia |].
  rewrite (format_layout f Hne). apply includes_app_r.
  apply (includes_concat_map (specSection f) _ s).
  - apply filter_In. split.
    + destruct s; simpl; tauto.
    + apply Nat.ltb_lt. lia.
  - unfold specSection. do 5 apply includes_app_r. apply includes_app_l.
    unfold numberedFrom.
    apply (includes_concat_map (fun p => numberedItem (fst p) (snd p)) _ (1 + k, i));
      [exact Hnum | apply includes_refl].
Qed.

Lemma every_finding_is_printed_witness :
  exists k, 1 <= k <= countSeverity INFO twoCriticalOneInfo /\
            includes (format twoCriticalOneInfo) (numberedItem k waitUntilIssue) = true.
Proof.
  apply (every_finding_is_printed twoCriticalOneInfo waitUntilIssue Info).
  - right. left. reflexivity.
  - reflexivity.
Defined.

(** ** The two pattern rules, in terms of the text *)

(** The missing-error-handling WARNING is emitted exactly for the texts in
    which [async] is followed by at least one white space unit and then a
    word character, and in which neither [try] nor [catch] occurs. *)
Theorem error_handling_rule_shape (code : jsstring) :
  In errorHandlingIssue (analyze code) <->
  (exists a ws w b,
     code = a ++ lit "async" ++ ws ++ w :: b /\
     ws <> [] /\ forallb isWhiteSpace ws = true /\ isWordChar w = true) /\
  includes code (lit "try") = false /\
  includes code (lit "catch") = false.
Proof.
  rewrite errorHandlingIssue_emitted, !andb_true_iff, !negb_true_iff, search_spec.
  split.
  - intros [[(a & u & b & -> & Hu) Ht] Hc]. repeat split; auto.
    apply lang_asyncRegex in Hu.
    destruct Hu as (ws & w & -> & Hws & Hws' & Hw & Hw').
    destruct w as [| c w]; [congruence |].
    simpl in Hw'. apply andb_true_iff in Hw'. destruct Hw' as [Hc' _].
    exists a, ws, c, (w ++ b). repeat split; auto.
    now rewrite <- !app_assoc.
  - intros [(a & ws & w & b & -> & Hws & Hws' & Hw) [Ht Hc]].
    repeat split; auto.
    exists a, (lit "async" ++ ws ++ [w]), b. split.
    + now rewrite <- !app_assoc.
    + apply lang_asyncRegex. exists ws, [w]. repeat split; auto.
      * discriminate.
      * simpl. now rewrite Hw.
Qed.

(** The global-state WARNING is emitted exactly for the texts that contain
    [export default] and in which, at the start of the text or right after
    a line terminator, one of [let], [var], [const] is followed by white
    space, a word, optional white space and [=]. *)
Theorem global_state_rule_shape (code : jsstring) :
  In globalStateIssue (analyze code) <->
  (exists a kw ws1 w ws2 b,
     code = a ++ kw ++ ws1 ++ w ++ ws2 ++ lit "=" ++ b /\
     lineStart true a = true /\
     In kw [lit "let"; lit "var"; lit "const"] /\
     ws1 <> [] /\ forallb isWhiteSpace ws1 = true /\
     w <> [] /\ forallb isWordChar w = true /\
     forallb isWhiteSpace ws2 = true) /\
  includes code (lit "export default") = true.
Proof.
  rewrite globalStateIssue_emitted, andb_true_iff, searchLines_spec.
  split.
  - intros [(a & u & b & -> & Hu & Ha) He]. split; [| exact He].
    apply lang_globalStateRegex in Hu.
    destruct Hu as (kw & ws1 & w & ws2 & -> & Hkw & H1 & H2 & H3 & H4 & H5).
    exists a, kw, ws1, w, ws2, b. repeat split; auto.
    now rewrite <- !app_assoc.
  - intros [(a & kw & ws1 & w & ws2 & b & -> & Ha & Hkw & H1 & H2 & H3 & H4 & H5) He].
    split; [| exact He].
    exists a, (kw ++ ws1 ++ w ++ ws2 ++ lit "="), b. repeat split; auto.
    + now rewrite <- !app_assoc.
    + apply lang_globalStateRegex. exists kw, ws1, w, ws2. repeat split; auto.
Qed.

(** A text without findings contains [export default] and a [fetch(] or
    [fetch (]; if it contains [fetch(] or [await] it also contains
    [waitUntil], and if it contains [return ] it also contains [Response]. *)
Theorem clean_text_requirements (code : jsstring) :
  analyze code = [] ->
  includes code (lit "export default") = true /\
  (includes code (lit "fetch(") = true \/ includes code (lit "fetch (") = true) /\
  (includes code (lit "fetch(") = true \/ includes code (lit "await") = true ->
   includes code (lit "waitUntil") = true) /\
  (includes code (lit "return ") = true -> includes code (lit "Response") = true).
Proof.
  intros Hclean.
  assert (Hnone : forall i, ~ In i (analyze code)) by (rewrite Hclean; intros i []).
  pose proof (Hnone defaultExportIssue) as H1.
  pose proof (Hnone fetchHandlerIssue) as H2.
  pose proof (Hnone waitUntilIssue) as H3.
  pose proof (Hnone responseIssue) as H4.
  rewrite defaultExportIssue_emitted in H1.
  rewrite fetchHandlerIssue_emitted in H2.
  rewrite waitUntilIssue_emitted in H3.
  rewrite responseIssue_emitted in H4.
  destruct (includes code (lit "export default")); [| exfalso; now apply H1].
  destruct (includes code (lit "fetch("));
    destruct (includes code (lit "fetch ("));
    destruct (includes code (lit "await"));
    destruct (includes code (lit "waitUntil"));
    destruct (includes code (lit "return "));
    destruct (includes code (lit "Response"));
    simpl in *; intuition congruence.
Qed.

Lemma clean_text_requirements_witness :
  includes cleanWorker (lit "export default") = true /\
  includes cleanWorker (lit "waitUntil") = true.
Proof.
  assert (Hclean : analyze cleanWorker = []) by (vm_compute; reflexivity).
  destruct (clean_text_requirements cleanWorker Hclean) as (H1 & H2 & H3 & _).
  split; [exact H1 |]. apply H3. left. vm_compute. reflexivity.
Defined.

(** ** The earlier variant against the current one *)

Lemma earlier_push_say (b : bool) (issues : list jsstring) (m : jsstring) :
  (if b then Earlier.push issues m else issues) = issues ++ Earlier.say b m.
Proof. destruct b; simpl; [reflexivity | now rewrite app_nil_r]. Qed.

Lemma earlier_forEach_append {A : Type} (body : A -> list jsstring -> list jsstring)
    (h : A -> list jsstring) :
  (forall x st, body x st = st ++ h x) ->
  forall l st, forEach l body st = st ++ flat_map h l.
Proof.
  intros Hbody l. unfold forEach.
  induction l as [| x l IH]; intros st; simpl.
  - now rewrite app_nil_r.
  - rewrite IH, Hbody, <- app_assoc. reflexivity.
Qed.

Lemma earlier_analyze_segments (code : jsstring) :
  Earlier.analyze code = Earlier.nodeMessages code ++ Earlier.fixedMessages code.
Proof.
  unfold Earlier.analyze. cbv zeta.
  rewrite (earlier_forEach_append _
    (fun api =>
       Earlier.say (includes code (lit "from '" ++ api ++ lit "'") ||
                    includes code (lit "require('" ++ api ++ lit "')"))
         (Earlier.nodeMessage api)))
    by (intros; apply earlier_push_say).
  rewrite !earlier_push_say.
  unfold Earlier.nodeMessages, Earlier.fixedMessages.
  rewrite <- !app_assoc. reflexivity.
Qed.

Lemma in_say (b : bool) (m x : jsstring) :
  In x (Earlier.say b m) <-> b = true /\ x = m.
Proof.
  destruct b; simpl; split.
  - intros [H | []]; auto.
  - intros [_ H]; auto.
  - intros [].
  - intros [H _]; discriminate.
Qed.

Lemma earlier_in_analyze (code x : jsstring) :
  In x (Earlier.analyze code) <->
  (exists api, In api Earlier.nodeAPIs /\
     includes code (lit "from '" ++ api ++ lit "'") ||
     includes code (lit "require('" ++ api ++ lit "')") = true /\
     x = Earlier.nodeMessage api) \/
  (includes code (lit ".readFileSync") || includes code (lit ".writeFileSync") = true /\
   x = Earlier.syncMessage) \/
  (includes code (lit "setTimeout") || includes code (lit "setInterval") = true /\
   x = Earlier.timersMessage) \/
  (includes code (lit "async") && negb (includes code (lit "try")) &&
   negb (includes code (lit "catch")) = true /\ x = Earlier.asyncMessage) \/
  (negb (includes code (lit "export default")) = true /\ x = Earlier.exportMessage) \/
  (negb (includes code (lit "fetch(")) = true /\ x = Earlier.fetchMessage).
Proof.
  rewrite earlier_analyze_segments, in_app_iff.
  unfold Earlier.nodeMessages, Earlier.fixedMessages.
  rewrite in_flat_map, !in_app_iff, !in_say.
  split.
  - intros [(api & Hin & H) | H]; [left; exists api; apply in_say in H; tauto | tauto].
  - intros [(api & Hin & H) | H]; [left; exists api; rewrite in_say; tauto | tauto].
Qed.

(** Two messages that differ are told apart by their code units. *)
Ltac by_text H := cbv in H; discriminate H.

Lemma earlier_nodeAPIs_current (api : jsstring) :
  In api Earlier.nodeAPIs -> In api nodeAPIs.
Proof.
  unfold Earlier.nodeAPIs, nodeAPIs. cbn [In]. intuition.
Qed.

Lemma earlier_nodeMessage_inj (a b : jsstring) :
  Earlier.nodeMessage a = Earlier.nodeMessage b -> a = b.
Proof.
  unfold Earlier.nodeMessage. intros H.
  apply app_inv_head in H. apply app_inv_head in H. apply app_inv_tail in H.
  exact H.
Qed.

(** A fixed message of the earlier variant is pushed exactly when its own
    condition holds. *)
Ltac earlier_emitted :=
  let H := fresh "H" in
  rewrite earlier_in_analyze; split;
  [ intros H;
    repeat (destruct H as [H | H]);
    [ destruct H as (?api & _ & _ & H); by_text H | .. ];
    destruct H as [H ?E]; try by_text E; exact H
  | intros H;
    repeat first [ split; [exact H | reflexivity]
                 | left; split; [exact H | reflexivity]
                 | right ] ].

Lemma earlier_syncMessage_emitted (code : jsstring) :
  In Earlier.syncMessage (Earlier.analyze code) <->
  includes code (lit ".readFileSync") || includes code (lit ".writeFileSync") = true.
Proof. earlier_emitted. Qed.

Lemma earlier_timersMessage_emitted (code : jsstring) :
  In Earlier.timersMessage (Earlier.analyze code) <->
  includes code (lit "setTimeout") || includes code (lit "setInterval") = true.
Proof. earlier_emitted. Qed.

Lemma earlier_asyncMessage_emitted (code : jsstring) :
  In Earlier.asyncMessage (Earlier.analyze code) <->
  includes code (lit "async") && negb (includes code (lit "try")) &&
  negb (includes code (lit "catch")) = true.
Proof. earlier_emitted. Qed.

Lemma earlier_exportMessage_emitted (code : jsstring) :
  In Earlier.exportMessage (Earlier.analyze code) <->
  negb (includes code (lit "export default")) = true.
Proof. earlier_emitted. Qed.

Lemma earlier_fetchMessage_emitted (code : jsstring) :
  In Earlier.fetchMessage (Earlier.analyze code) <->
  negb (includes code (lit "fetch(")) = true.
Proof. earlier_emitted. Qed.

Lemma earlier_nodeMessage_emitted (code api : jsstring) :
  In (Earlier.nodeMessage api) (Earlier.analyze code) ->
  In api Earlier.nodeAPIs /\
  includes code (lit "from '" ++ api ++ lit "'") ||
  includes code (lit "require('" ++ api ++ lit "')") = true.
Proof.
  rewrite earlier_in_analyze. intros H.
  repeat (destruct H as [H | H]).
  - destruct H as (api' & Hin & Hc & E). apply earlier_nodeMessage_inj in E.
    subst api'. auto.
  - destruct H as [_ E]. by_text E.
  - destruct H as [_ E]. by_text E.
  - destruct H as [_ E]. by_text E.
  - destruct H as [_ E]. by_text E.
  - destruct H as [_ E]. by_text E.
Qed.

Lemma includes_suffix (s p q : jsstring) :
  includes s (p ++ q) = true -> includes s q = true.
Proof.
  rewrite !includes_spec. intros (a & b & ->).
  exists (a ++ p), b. now rewrite <- !app_assoc.
Qed.

Lemma blocking_emitted (code : jsstring) (op : jsstring * jsstring) :
  In op blockingOps -> includes code (fst op) = true ->
  In (blockingIssue (fst op) (snd op)) (analyze code).
Proof.
  intros Hin H. apply in_analyze. right. left. apply in_blockingFindings.
  exists op. auto.
Qed.

(** What the earlier variant reports about modules, synchronous file
    operations, timers and the default export, the current analyzer reports
    too: each such message has its finding, and for timers and the default
    export the two variants fire on the same texts. *)
Theorem earlier_findings_kept (code : jsstring) :
  (forall api, In (Earlier.nodeMessage api) (Earlier.analyze code) ->
               In (nodeIssue api) (analyze code)) /\
  (In Earlier.syncMessage (Earlier.analyze code) ->
   In (blockingIssue (lit "readFileSync") (lit "Use KV.get() or R2 fetch with await"))
     (analyze code) \/
   In (blockingIssue (lit "writeFileSync") (lit "Use KV.put() or R2 put with await"))
     (analyze code)) /\
  (In Earlier.timersMessage (Earlier.analyze code) <-> In timersIssue (analyze code)) /\
  (In Earlier.exportMessage (Earlier.analyze code) <->
   In defaultExportIssue (analyze code)).
Proof.
  split; [| split; [| split]].
  - intros api H. apply earlier_nodeMessage_emitted in H. destruct H as [Hin H].
    apply (proj2 (nodeIssue_emitted code api (earlier_nodeAPIs_current api Hin))).
    unfold mentionsModule. apply orb_true_iff in H.
    destruct H as [H | H]; rewrite H; rewrite ?orb_true_r; reflexivity.
  - intros H. apply (proj1 (earlier_syncMessage_emitted code)) in H.
    apply orb_true_iff in H. destruct H as [H | H].
    + left. change (lit ".readFileSync") with (lit "." ++ lit "readFileSync") in H.
      apply includes_suffix in H.
      apply (blocking_emitted code
               (lit "readFileSync", lit "Use KV.get() or R2 fetch with await"));
        [left; reflexivity | exact H].
    + right. change (lit ".writeFileSync") with (lit "." ++ lit "writeFileSync") in H.
      apply includes_suffix in H.
      apply (blocking_emitted code
               (lit "writeFileSync", lit "Use KV.put() or R2 put with await"));
        [right; left; reflexivity | exact H].
  - rewrite earlier_timersMessage_emitted, timersIssue_emitted. reflexivity.
  - rewrite earlier_exportMessage_emitted, defaultExportIssue_emitted. reflexivity.
Qed.

(** The current error-handling and fetch-handler rules fire on fewer texts
    than the earlier ones: whenever the current analyzer emits one of these
    findings the earlier variant emits its message, while an async arrow
    function, or a handler written [fetch (], is reported by the earlier
    variant only. *)
Theorem current_rules_narrower :
  (forall code, In errorHandlingIssue (analyze code) ->
                In Earlier.asyncMessage (Earlier.analyze code)) /\
  (forall code, In fetchHandlerIssue (analyze code) ->
                In Earlier.fetchMessage (Earlier.analyze code)) /\
  (In Earlier.asyncMessage (Earlier.analyze asyncArrow) /\
   ~ In errorHandlingIssue (analyze asyncArrow)) /\
  (In Earlier.fetchMessage (Earlier.analyze spacedFetch) /\
   ~ In fetchHandlerIssue (analyze spacedFetch)).
Proof.
  repeat apply conj.
  - intros code H. apply (proj1 (errorHandlingIssue_emitted code)) in H.
    apply (proj2 (earlier_asyncMessage_emitted code)).
    rewrite !andb_true_iff in H. destruct H as [[Hs Ht] Hc].
    rewrite Ht, Hc, !andb_true_r.
    apply search_spec in Hs. destruct Hs as (a & u & b & -> & Hu).
    apply lang_asyncRegex in Hu. destruct Hu as (ws & w & -> & _).
    apply includes_spec. exists a, ((ws ++ w) ++ b). now rewrite <- !app_assoc.
  - intros code H. apply (proj1 (fetchHandlerIssue_emitted code)) in H.
    apply (proj2 (earlier_fetchMessage_emitted code)).
    apply andb_true_iff in H. tauto.
  - apply (proj2 (earlier_asyncMessage_emitted asyncArrow)). vm_compute. reflexivity.
  - intros H. apply (proj1 (errorHandlingIssue_emitted asyncArrow)) in H.
    vm_compute in H. discriminate H.
  - apply (proj2 (earlier_fetchMessage_emitted spacedFetch)). vm_compute. reflexivity.
  - intros H. apply (proj1 (fetchHandlerIssue_emitted spacedFetch)) in H.
    vm_compute in H. discriminate H.
Qed.

(** ** Sample texts under the pattern rules *)

Lemma error_handling_rule_shape_witness :
  In errorHandlingIssue (analyze asyncHandler).
Proof.
  apply (proj2 (error_handling_rule_shape asyncHandler)).
  repeat apply conj; try (vm_compute; reflexivity).
  exists (lit "export default { "), (lit " "), 102%N,
    (lit "etch(request, env, ctx) { ctx.waitUntil(log()); } }").
  repeat apply conj; try reflexivity. discriminate.
Defined.

Lemma global_state_rule_shape_witness :
  In globalStateIssue (analyze moduleCounter).
Proof.
  apply (proj2 (global_state_rule_shape moduleCounter)).
  split; [| vm_compute; reflexivity].
  exists (lit "import x from 'y';" ++ nl), (lit "let"), (lit " "), (lit "counter"),
    (lit " "),
    (lit " 0;" ++ nl ++
     lit "export default { fetch(request, env, ctx) { ctx.waitUntil(done); } }").
  repeat apply conj; try reflexivity; try discriminate.
  left. reflexivity.
Defined.

(** The word [catch] anywhere in the text, for instance a promise [.catch(]
    on an unrelated call, keeps the missing-error-handling WARNING out of the
    findings, even though awaited calls stay outside any try block. *)
Theorem catch_substring_silences_error_handling (code : jsstring) :
  includes code (lit "catch") = true ->
  forall i, In i (analyze code) -> title i <> title errorHandlingIssue.
Proof.
  intros Hcatch i H. by_rule H.
  - subst i. intros E. cbv in E. discriminate E.
  - subst i. intros E. cbv in E. discriminate E.
  - unfold fixedFindings in H. rewrite !in_app_iff, !in_when in H.
    repeat (destruct H as [H | H]); destruct H as [Hc ->];
      try (intros E; cbv in E; discriminate E).
    rewrite Hcatch in Hc. simpl in Hc. rewrite andb_false_r in Hc.
    discriminate Hc.
Qed.

Lemma catch_substring_silences_error_handling_witness :
  search asyncRegex promiseCatch = true /\
  includes promiseCatch (lit "try") = false /\
  forall i, In i (analyze promiseCatch) -> title i <> title errorHandlingIssue.
Proof.
  repeat apply conj; try (vm_compute; reflexivity).
  apply (catch_substring_silences_error_handling promiseCatch).
  vm_compute. reflexivity.
Defined.

(** ** Sections of the report, code unit by code unit *)

Lemma asciiOnly_app (a b : jsstring) :
  asciiOnly (a ++ b) = asciiOnly a && asciiOnly b.
Proof. apply forallb_app. Qed.

Lemma asciiOnly_digits (d : Decimal.uint) :
  asciiOnly (lit (NilEmpty.string_of_uint d)) = true.
Proof. induction d; simpl; auto. Qed.

Lemma asciiOnly_toString (n : nat) : asciiOnly (toString n) = true.
Proof. apply asciiOnly_digits. Qed.

Lemma asciiOnly_notin (l : jsstring) (c : N) :
  asciiOnly l = true -> (128 <= c)%N -> ~ In c l.
Proof.
  unfold asciiOnly. rewrite forallb_forall. intros Hall Hc Hin.
  apply Hall in Hin. apply N.ltb_lt in Hin. lia.
Qed.

Lemma asciiOnly_numberedFrom (l : list Finding) :
  (forall i, In i l -> asciiOnly (title i) = true /\ asciiOnly (description i) = true) ->
  forall k, asciiOnly (numberedFrom k l) = true.
Proof.
  unfold numberedFrom.
  induction l as [| x l IH]; intros Hall k; [reflexivity |].
  cbn [length seq combine map concat fst snd].
  rewrite asciiOnly_app, IH by (intros i Hi; apply Hall; now right).
  destruct (Hall x (or_introl eq_refl)) as [Ht Hd].
  unfold numberedItem. rewrite !asciiOnly_app, asciiOnly_toString, Ht, Hd.
  reflexivity.
Qed.

Lemma sectionMarkUnit_in_label (s s' : Severity) :
  In (sectionMarkUnit s) (sectionLabel s') <-> s = s'.
Proof.
  split.
  - destruct s, s'; try reflexivity; cbv; intros H;
      repeat (destruct H as [H | H]; [discriminate H |]); contradiction.
  - intros <-. destruct s; cbv; tauto.
Qed.

Lemma sectionMarkUnit_high (s : Severity) : (128 <= sectionMarkUnit s)%N.
Proof. destruct s; cbv; discriminate. Qed.

Lemma in_of_includes (s p : jsstring) (c : N) :
  includes s p = true -> In c p -> In c s.
Proof.
  rewrite includes_spec. intros (a & b & ->) Hc.
  rewrite !in_app_iff. tauto.
Qed.

Lemma present_iff (f : list Finding) (s : Severity) :
  In s (presentSeverities f) <-> exists i, In i f /\ severity i = severityName s.
Proof.
  unfold presentSeverities. rewrite filter_In, countSeverity_existsb, existsb_exists.
  split.
  - intros [_ (i & Hi & E)]. exists i. apply eqb_eq in E. auto.
  - intros (i & Hi & E). split.
    + destruct s; simpl; tauto.
    + exists i. split; [exact Hi | now apply eqb_eq].
Qed.

(** C4: the report of a non-empty finding list is the count header followed
    by the sections of those severities among CRITICAL, ERROR, WARNING, INFO
    that have a finding, in this order, each section being the label, the
    count and the numbered findings of its severity, and nothing else; when
    the titles and descriptions are ASCII, as those of the catalog are, the
    label of a severity without finding occurs nowhere in the report. *)
Theorem report_sections_in_fixed_order (f : list Finding) :
  f <> [] ->
  format f =
    countHeader (length f) ++
    concat (map (specSection f)
              (filter (fun s => existsb (fun i => eqb (severity i) (severityName s)) f)
                 [Critical; Error; Warning; Info])) /\
  (forall s,
     (forall i, In i f -> severity i <> severityName s) ->
     (forall i, In i f ->
        asciiOnly (title i) = true /\ asciiOnly (description i) = true) ->
     includes (format f) (sectionLabel s) = false).
Proof.
  intros Hne. split.
  - rewrite (format_layout f Hne). do 3 f_equal.
    unfold presentSeverities, severityOrder.
    apply filter_ext. intros s. apply countSeverity_existsb.
  - intros s Habsent Hascii.
    destruct (includes (format f) (sectionLabel s)) eqn:Hinc; [exfalso | reflexivity].
    assert (Hmark : In (sectionMarkUnit s) (format f)).
    { apply (in_of_includes _ _ _ Hinc). now apply sectionMarkUnit_in_label. }
    pose proof (sectionMarkUnit_high s) as Hhigh.
    rewrite (format_layout f Hne), in_app_iff in Hmark.
    destruct Hmark as [Hmark | Hmark].
    + revert Hmark. apply asciiOnly_notin; [| exact Hhigh].
      unfold countHeader. rewrite !asciiOnly_app, asciiOnly_toString. reflexivity.
    + apply in_concat in Hmark. destruct Hmark as (text & Htext & Hmark).
      apply in_map_iff in Htext. destruct Htext as (s' & <- & Hs').
      unfold specSection in Hmark. rewrite in_app_iff in Hmark.
      destruct Hmark as [Hmark | Hmark].
      * apply sectionMarkUnit_in_label in Hmark. subst s'.
        apply present_iff in Hs'. destruct Hs' as (i & Hi & E).
        exact (Habsent i Hi E).
      * revert Hmark. apply asciiOnly_notin; [| exact Hhigh].
        rewrite !asciiOnly_app, asciiOnly_toString, asciiOnly_numberedFrom.
        -- destruct s'; reflexivity.
        -- intros i Hi. apply Hascii. unfold ofSeverity in Hi.
           apply filter_In in Hi. tauto.
Qed.

Lemma report_sections_in_fixed_order_witness :
  format twoCriticalOneInfo =
    countHeader 3 ++ specSection twoCriticalOneInfo Critical ++
    specSection twoCriticalOneInfo Info /\
  includes (format twoCriticalOneInfo) (sectionLabel Error) = false /\
  includes (format twoCriticalOneInfo) (sectionLabel Warning) = false.
Proof.
  destruct (report_sections_in_fixed_order twoCriticalOneInfo) as [Hf Habs];
    [discriminate |].
  assert (Hascii : forall i, In i twoCriticalOneInfo ->
            asciiOnly (title i) = true /\ asciiOnly (description i) = true).
  { intros i [<- | [<- | [<- | []]]]; split; vm_compute; reflexivity. }
  repeat apply conj.
  - rewrite Hf. vm_compute. reflexivity.
  - apply Habs; [| exact Hascii].
    intros i [<- | [<- | [<- | []]]]; cbv; discriminate.
  - apply Habs; [| exact Hascii].
    intros i [<- | [<- | [<- | []]]]; cbv; discriminate.
Defined.

(** ** The entry point over the heap of arrays *)

Lemma setNth_alloc {A : Type} (pre : list A) (old x : A) :
  setNth (length pre) x (pre ++ [old]) = pre ++ [x].
Proof. induction pre as [| h pre IH]; simpl; [reflexivity | now rewrite IH]. Qed.

Lemma nth_alloc {A : Type} (pre : list A) (x d : A) :
  nth (length pre) (pre ++ [x]) d = x.
Proof. induction pre as [| h pre IH]; simpl; [reflexivity | exact IH]. Qed.

Lemma nth_kept {A : Type} (pre : list A) (x d : A) (loc : nat) :
  loc < length pre -> nth loc (pre ++ [x]) d = nth loc pre d.
Proof. intros H. now apply app_nth1. Qed.

Lemma bindW_run {A B : Type} (m : InWorld A) (k : A -> InWorld B)
    (w w' : World) (a : A) :
  m w = (a, w') -> bindW m k w = k a w'.
Proof. intros H. unfold bindW. now rewrite H. Qed.

(** A conditional push on the array allocated last. *)
Lemma pushIf_run (b : bool) (c : Console) (pre : list (list Finding))
    (l : list Finding) (i : Finding) :
  pushIf b (length pre) i (mkWorld c (pre ++ [l])) =
  (tt, mkWorld c (pre ++ [l ++ when b i])).
Proof.
  destruct b; unfold pushIf, arrayPush, retW; cbn [console arrays when].
  - now rewrite nth_alloc, setNth_alloc.
  - now rewrite app_nil_r.
Qed.

Lemma forEachW_run {A : Type} (items : list A) (body : A -> InWorld unit)
    (cond : A -> bool) (g : A -> Finding) (c : Console)
    (pre : list (list Finding)) :
  (forall x, body x = pushIf (cond x) (length pre) (g x)) ->
  forall l,
    forEachW items body (mkWorld c (pre ++ [l])) =
    (tt, mkWorld c (pre ++ [l ++ flat_map (fun x => when (cond x) (g x)) items])).
Proof.
  intros Hbody. induction items as [| x items IH]; intros l; cbn [forEachW flat_map].
  - unfold retW. now rewrite app_nil_r.
  - rewrite (bindW_run _ _ _ _ tt (eq_trans (f_equal (fun m => m _) (Hbody x))
                                     (pushIf_run _ c pre l (g x)))).
    rewrite IH, <- app_assoc. reflexivity.
Qed.

Lemma logW_step {B : Type} (msg : jsstring) (k : unit -> InWorld B) (w : World) :
  bindW (logW msg) k w = k tt (mkWorld (console w ++ [msg]) (arrays w)).
Proof. reflexivity. Qed.

Lemma newArray_step {B : Type} (k : nat -> InWorld B) (w : World) :
  bindW newArray k w =
  k (length (arrays w)) (mkWorld (console w) (arrays w ++ [[]])).
Proof. reflexivity. Qed.

Lemma arrayRead_step {B : Type} (loc : nat) (k : list Finding -> InWorld B)
    (w : World) :
  bindW (arrayRead loc) k w = k (nth loc (arrays w) []) w.
Proof. reflexivity. Qed.

(** One call, in any world: the report, the array it allocates, and the
    console line it adds. *)
Lemma executeInWorld_run (code : jsstring) (filename : option jsstring) (w : World) :
  executeInWorld code filename w =
  (format (analyze code),
   mkWorld (snd (execute code filename (console w))) (arrays w ++ [analyze code])).
Proof.
  unfold execute, bind, console_log, ret. cbn [snd]. unfold executeInWorld.
  rewrite logW_step, newArray_step. cbn [console arrays].
  rewrite (bindW_run _ _ _ _ tt
             (forEachW_run nodeAPIs _ (mentionsModule code) nodeIssue _ _
                (fun api => eq_refl) [])).
  cbv beta.
  rewrite (bindW_run _ _ _ _ tt
             (forEachW_run blockingOps
                (fun '(pattern, fix') =>
                   pushIf (includes code pattern) (length (arrays w))
                     (blockingIssue pattern fix'))
                (fun op => includes code (fst op))
                (fun op => blockingIssue (fst op) (snd op)) _ (arrays w)
                (fun op => match op with (pattern, fix') => eq_refl end) _)).
  cbv beta.
  do 8 (rewrite (bindW_run _ _ _ _ tt (pushIf_run _ _ _ _ _)); cbv beta).
  rewrite arrayRead_step. cbn [console arrays].
  unfold retW. rewrite nth_alloc.
  replace (analyze code) with
    (((((((((([] ++ flat_map (fun api => when (mentionsModule code api) (nodeIssue api))
                       nodeAPIs) ++
             flat_map (fun op => when (includes code (fst op))
                                   (blockingIssue (fst op) (snd op))) blockingOps) ++
            when (includes code (lit "setTimeout") || includes code (lit "setInterval"))
              timersIssue) ++
           when (searchLines true globalStateRegex code &&
                 includes code (lit "export default")) globalStateIssue) ++
          when (search asyncRegex code && negb (includes code (lit "try")) &&
                negb (includes code (lit "catch"))) errorHandlingIssue) ++
         when (negb (includes code (lit "export default"))) defaultExportIssue) ++
        when (negb (includes code (lit "fetch(")) && negb (includes code (lit "fetch (")))
          fetchHandlerIssue) ++
       when (includes code (lit "fetch(request)") &&
             negb (includes code (lit "fetch(request, env"))) envParameterIssue) ++
      when (includes code (lit "return ") && negb (includes code (lit "Response")))
        responseIssue) ++
     when ((includes code (lit "await") || includes code (lit "fetch(")) &&
           negb (includes code (lit "waitUntil"))) waitUntilIssue).
  - reflexivity.
  - rewrite analyze_segments. unfold nodeFindings, blockingFindings, fixedFindings.
    rewrite <- !app_assoc. reflexivity.
Qed.

(** C7: two calls on the same text return the same report and push the same
    findings in the same order, whatever the file names, the consoles and
    the arrays already on the heap, also when the second call runs in the
    world the first one leaves; the report and the findings are those of
    [format] and [analyze]; a call writes no array that existed before it,
    it allocates one array and adds one console line. *)
Theorem execute_repeatable_without_mutation (code : jsstring)
    (filename1 filename2 : option jsstring) (w1 w2 : World) :
  fst (executeInWorld code filename1 w1) = fst (executeInWorld code filename2 w2) /\
  nth (length (arrays w1)) (arrays (snd (executeInWorld code filename1 w1))) [] =
    nth (length (arrays w2)) (arrays (snd (executeInWorld code filename2 w2))) [] /\
  fst (executeInWorld code filename2 (snd (executeInWorld code filename1 w1))) =
    fst (executeInWorld code filename1 w1) /\
  nth (length (arrays w1)) (arrays (snd (executeInWorld code filename1 w1))) [] =
    analyze code /\
  fst (executeInWorld code filename1 w1) = fst (execute code filename1 (console w1)) /\
  length (arrays (snd (executeInWorld code filename1 w1))) = S (length (arrays w1)) /\
  (forall loc, loc < length (arrays w1) ->
     nth loc (arrays (snd (executeInWorld code filename1 w1))) [] =
     nth loc (arrays w1) []) /\
  console (snd (executeInWorld code filename1 w1)) =
    snd (execute code filename1 (console w1)) /\
  exists logged,
    console (snd (executeInWorld code filename1 w1)) = console w1 ++ [logged].
Proof.
  rewrite !executeInWorld_run. cbn [fst snd console arrays].
  rewrite !nth_alloc.
  split; [reflexivity |]. split; [reflexivity |]. split; [reflexivity |].
  split; [reflexivity |]. split; [reflexivity |].
  split; [rewrite length_app; simpl; lia |].
  split; [intros loc Hloc; now apply nth_kept |].
  split; [reflexivity |].
  unfold execute, bind, console_log, ret. cbn [snd]. eexists. reflexivity.
Qed.

Lemma execute_repeatable_without_mutation_witness :
  fst (executeInWorld scenario1 None usedWorld) =
    fst (executeInWorld scenario1 (Some (lit "worker.js")) (mkWorld [] [])) /\
  nth 0 (arrays (snd (executeInWorld scenario1 None usedWorld))) [] = [timersIssue].
Proof.
  pose proof (execute_repeatable_without_mutation scenario1 None
                (Some (lit "worker.js")) usedWorld (mkWorld [] [])) as H.
  destruct H as (Hsame & _ & _ & _ & _ & _ & Hkept & _).
  split; [exact Hsame |].
  apply (Hkept 0). cbn. lia.
Defined.
